(** * The DNS message decoder of gertanoh/dns-resolver

    A shallow embedding of the two versions of the decoder found in the
    repository and the properties of the decoder's specification settled
    against them:

    - [Parser]  embeds [internal/parser/parser.go]: names are decoded by a
      label loop that knows no compression pointer;
    - [Part000] embeds the second parser file ([unnamed/part_000]): octet 192
      is followed as a pointer and NS records (type 2, class 1) get their
      RDATA re-decoded as a name.

    [parseHeader], [parseQuestion] and [Read] are the same text in both files;
    they are embedded once, in [Section Decoder], over the two functions in
    which the files differ.

    Go values are modelled as the code has them: a [[]byte] is a slice with a
    length and a capacity, indexing and slicing outside them is a run-time
    panic, [uint16]/[uint32] arithmetic is on [Z] with its wrap-around written
    out, [int] offsets are on [Z] (every offset the decoder computes is at
    most [cap(buffer) + 65535 + 10] before a bounds check stops it, so 64-bit
    arithmetic never wraps), and a Go [string] is a sequence of bytes. *)

From Stdlib Require Import ZArith List String Lia Bool.
From Stdlib Require Import Strings.Byte Strings.Ascii.
Import ListNotations.
Local Open Scope string_scope.
Local Open Scope list_scope.
Local Open Scope Z_scope.

(** ** Outcomes of running Go code *)

(** The two run-time panics the decoder can raise. *)
Inductive panic : Type :=
| IndexOutOfRange        (* buffer[i] with i outside [0, len) *)
| SliceBoundsOutOfRange. (* buffer[lo:hi] outside 0 <= lo <= hi <= cap *)

(** A call returns, panics (the process crashes: nothing in the repository
    recovers), or has not finished within the fuel it was given.  A call
    that is out of fuel for every fuel recurses without bound; the Go
    run-time ends such a process with a fatal stack overflow. *)
Inductive outcome (A : Type) : Type :=
| Ret (a : A)
| Panic (p : panic)
| OutOfFuel.

Arguments Ret {A} a.
Arguments Panic {A} p.
Arguments OutOfFuel {A}.

Definition bind {A B : Type} (m : outcome A) (k : A -> outcome B) : outcome B :=
  match m with
  | Ret a => k a
  | Panic p => Panic p
  | OutOfFuel => OutOfFuel
  end.

Notation "x <- m ;; k" := (bind m (fun x => k))
  (at level 61, m at next level, right associativity).
Notation "' pat <- m ;; k" := (bind m (fun x => match x with pat => k end))
  (at level 61, pat pattern, m at next level, right associativity).

(** ** Bytes and slices *)

(** [int(b)], [uint16(b)], [uint32(b)] of a byte [b]. *)
Definition byte_val (b : byte) : Z := Z.of_N (Byte.to_N b).

(** The byte of value [z], for writing buffers down. *)
Definition octet (z : Z) : byte :=
  match Byte.of_N (Z.to_N z) with
  | Some b => b
  | None => x00
  end.

(** A [[]byte]: the [len] visible elements, then the rest of the backing
    array up to the capacity. *)
Record slice : Type := mkSlice { elems : list byte; spare : list byte }.

Definition len (s : slice) : Z := Z.of_nat (List.length (elems s)).
Definition cap (s : slice) : Z := Z.of_nat (List.length (elems s ++ spare s)).

(** [make([]byte, n)] filled with the given octets: length = capacity. *)
Definition bytes (l : list Z) : slice := mkSlice (map octet l) [].

(** [s[i]] *)
Definition index (s : slice) (i : Z) : outcome byte :=
  if i <? 0 then Panic IndexOutOfRange
  else match nth_error (elems s) (Z.to_nat i) with
       | Some b => Ret b
       | None => Panic IndexOutOfRange
       end.

(** [s[lo:hi]]: the bounds are checked against the capacity, and the result
    shares the backing array. *)
Definition subslice (s : slice) (lo hi : Z) : outcome slice :=
  if (0 <=? lo) && (lo <=? hi) && (hi <=? cap s) then
    let arr := elems s ++ spare s in
    Ret (mkSlice (firstn (Z.to_nat (hi - lo)) (skipn (Z.to_nat lo) arr))
                 (skipn (Z.to_nat hi) arr))
  else Panic SliceBoundsOutOfRange.

(** [string(s)] and [[]byte(str)] *)
Definition string_of (s : slice) : string := string_of_list_byte (elems s).
Definition bytes_of (str : string) : list byte := list_byte_of_string str.

(** ** encoding/binary, big endian (Go's standard library) *)

Module BigEndian.

(** [_ = b[1]; return uint16(b[1]) | uint16(b[0])<<8] *)
Definition Uint16 (b : slice) : outcome Z :=
  _ <- index b 1;;
  b1 <- index b 1;;
  b0 <- index b 0;;
  Ret (Z.lor (byte_val b1) (Z.shiftl (byte_val b0) 8 mod 2 ^ 16)).

(** [_ = b[3];
     return uint32(b[3]) | uint32(b[2])<<8 | uint32(b[1])<<16 | uint32(b[0])<<24] *)
Definition Uint32 (b : slice) : outcome Z :=
  _ <- index b 3;;
  b3 <- index b 3;;
  b2 <- index b 2;;
  b1 <- index b 1;;
  b0 <- index b 0;;
  Ret (Z.lor (Z.lor (Z.lor (byte_val b3)
                           (Z.shiftl (byte_val b2) 8 mod 2 ^ 32))
                    (Z.shiftl (byte_val b1) 16 mod 2 ^ 32))
             (Z.shiftl (byte_val b0) 24 mod 2 ^ 32)).

End BigEndian.

(** ** The message types (the same in both parser files) *)

Record Header : Type := mkHeader {
  ID : Z;
  Flags : Z;
  QdCount : Z;
  AnCount : Z;
  NsCount : Z;
  ArCount : Z
}.

Record Question : Type := mkQuestion {
  QName : string;
  QType : Z;
  QClass : Z
}.

(** [RData] keeps the bytes of the Go slice; its capacity is not observed by
    anything in the repository. *)
Record Resource : Type := mkResource {
  RName : string;
  RType : Z;
  RClass : Z;
  RTtl : Z;
  RDlength : Z;
  RData : list byte
}.

Record Payload : Type := mkPayload {
  PHeader : Header;
  Questions : list Question;
  Answers : list Resource;
  Authorities : list Resource;
  Additionals : list Resource
}.

(** [var payload Payload]: the zero value. *)
Definition zero_Payload : Payload :=
  mkPayload (mkHeader 0 0 0 0 0 0) [] [] [] [].

(** [errors.New(msg)] *)
Inductive error : Type := errors_New (msg : string).

Definition short_header_error : error :=
  errors_New "message Header does not meet the minimun required length".

(** What [Read] prints on standard output with [fmt.Printf]. *)
Inductive event : Type :=
| PrintByte (i : Z) (b : byte)
| PrintHeader (h : Header)
| PrintQuestion (q : Question)
| PrintAnswer (r : Resource).

(** [for i, b := range s { fmt.Printf("Byte %d: ...", i, b, b) }] *)
Fixpoint dump_from (i : Z) (l : list byte) : list event :=
  match l with
  | [] => []
  | b :: l' => PrintByte i b :: dump_from (i + 1) l'
  end.

(** ** The text shared by the two parser files *)

(** [parseHeader] *)
Definition parseHeader (buffer : slice) : outcome Header :=
  id <- (s <- subslice buffer 0 2;; BigEndian.Uint16 s);;
  flags <- (s <- subslice buffer 2 4;; BigEndian.Uint16 s);;
  qd <- (s <- subslice buffer 4 6;; BigEndian.Uint16 s);;
  an <- (s <- subslice buffer 6 8;; BigEndian.Uint16 s);;
  ns <- (s <- subslice buffer 8 10;; BigEndian.Uint16 s);;
  ar <- (s <- subslice buffer 10 12;; BigEndian.Uint16 s);;
  Ret (mkHeader id flags qd an ns ar).

(** [for i = 0; i < count; i++ { x, newIndex := parse(buffer, index);
     index = newIndex; xs = append(xs, x) }]: [count] is a [uint16] and [i]
    stops below it, so the body runs exactly [count] times. *)
Fixpoint parse_section {A : Type} (parse : slice -> Z -> outcome (A * Z))
    (count : nat) (buffer : slice) (index : Z) (xs : list A)
    : outcome (list A * Z) :=
  match count with
  | O => Ret (xs, index)
  | S count' =>
      '(x, newIndex) <- parse buffer index;;
      parse_section parse count' buffer newIndex (xs ++ [x])
  end.

Section Decoder.

(** The two functions in which the parser files differ. *)
Variable parseDomainName : slice -> Z -> outcome (string * Z).
Variable parseResource : slice -> Z -> outcome (Resource * Z).

(** [parseQuestion] *)
Definition parseQuestion (buffer : slice) (offset : Z) : outcome (Question * Z) :=
  '(qname, n) <- parseDomainName buffer offset;;
  let offset := offset + n in
  qtype <- (s <- subslice buffer offset (offset + 2);; BigEndian.Uint16 s);;
  let offset := offset + 2 in
  qclass <- (s <- subslice buffer offset (offset + 2);; BigEndian.Uint16 s);;
  let offset := offset + 2 in
  Ret (mkQuestion qname qtype qclass, offset).

(** The four section loops of [Read], from [index := 12] on. *)
Definition read_sections (h : Header) (buffer : slice) : outcome Payload :=
  '(questions, index) <-
      parse_section parseQuestion (Z.to_nat (QdCount h)) buffer 12 [];;
  '(answers, index) <-
      parse_section parseResource (Z.to_nat (AnCount h)) buffer index [];;
  '(authorities, index) <-
      parse_section parseResource (Z.to_nat (NsCount h)) buffer index [];;
  '(additionals, index) <-
      parse_section parseResource (Z.to_nat (ArCount h)) buffer index [];;
  Ret (mkPayload h questions answers authorities additionals).

(** [Read]: what it prints, and how it ends. *)
Definition Read (buffer : slice) (n : Z)
    : list event * outcome (Payload * option error) :=
  match subslice buffer 0 n with
  | Ret dumped =>
      let out := dump_from 0 (elems dumped) in
      if len buffer <? 12 then
        (out, Ret (zero_Payload, Some short_header_error))
      else
        match (hb <- subslice buffer 0 12;; parseHeader hb) with
        | Ret h =>
            let out := out ++ [PrintHeader h] in
            match read_sections h buffer with
            | Ret payload =>
                (out ++ map PrintQuestion (Questions payload)
                     ++ map PrintAnswer (Answers payload),
                 Ret (payload, None))
            | Panic p => (out, Panic p)
            | OutOfFuel => (out, OutOfFuel)
            end
        | Panic p => (out, Panic p)
        | OutOfFuel => (out, OutOfFuel)
        end
  | Panic p => ([], Panic p)
  | OutOfFuel => ([], OutOfFuel)
  end.

End Decoder.

(** ** internal/parser/parser.go *)

Module Parser.

(** The body of [parseDomainName]'s [for] loop, with its two local variables
    as arguments.  Every turn reads [buffer[startOff]] and moves [startOff]
    forward, so [len(buffer) + 1] turns are never used up
    ([Parser_parseDomainName_finished] below). *)
Fixpoint parseDomainName_loop (fuel : nat) (buffer : slice) (offset : Z)
    (labels : list string) (startOff : Z) : outcome (string * Z) :=
  match fuel with
  | O => OutOfFuel
  | S fuel' =>
      b <- index buffer startOff;;
      let len := byte_val b in
      let startOff := startOff + 1 in
      if len =? 0 then
        Ret (String.concat "." labels, startOff - offset)
      else
        label <- subslice buffer startOff (startOff + len);;
        parseDomainName_loop fuel' buffer offset
          (labels ++ [string_of label]) (startOff + len)
  end.

Definition parseDomainName (buffer : slice) (offset : Z) : outcome (string * Z) :=
  parseDomainName_loop (S (List.length (elems buffer))) buffer offset [] offset.

(** [parseResource]; the callers bind a third result of [parseDomainName] to
    [_], which the function does not have: two results are used. *)
Definition parseResource (buffer : slice) (offset : Z) : outcome (Resource * Z) :=
  '(rname, n) <- parseDomainName buffer offset;;
  let offset := offset + n in
  rtype <- (s <- subslice buffer offset (offset + 2);; BigEndian.Uint16 s);;
  let offset := offset + 2 in
  rclass <- (s <- subslice buffer offset (offset + 2);; BigEndian.Uint16 s);;
  let offset := offset + 2 in
  rttl <- (s <- subslice buffer offset (offset + 4);; BigEndian.Uint32 s);;
  let offset := offset + 4 in
  rdlen <- (s <- subslice buffer offset (offset + 2);; BigEndian.Uint16 s);;
  let offset := offset + 2 in
  rddata <- subslice buffer offset (offset + rdlen);;
  let offset := offset + rdlen in
  Ret (mkResource rname rtype rclass rttl rdlen (elems rddata), offset).

Definition parseQuestion := parseQuestion parseDomainName.
Definition Read := Read parseDomainName parseResource.

End Parser.

(** ** The second parser file (unnamed/part_000) *)

Module Part000.

(** The body of [parseDomainName]'s [for] loop, with its two local variables
    as arguments; the recursive call of [parseDomainName] on a pointer is the
    loop started afresh at the pointed-to offset.  Nothing bounds the
    recursion, so the fuel is an argument. *)
Fixpoint parseDomainName_loop (fuel : nat) (buffer : slice) (offset : Z)
    (labels : string) (startOff : Z) : outcome (string * Z) :=
  match fuel with
  | O => OutOfFuel
  | S fuel' =>
      b <- index buffer startOff;;
      let len := byte_val b in
      if len =? 192 then
        t <- index buffer (startOff + 1);;
        '(label, _) <- parseDomainName_loop fuel' buffer (byte_val t) ""
                         (byte_val t);;
        let labels := (labels ++ label)%string in
        let startOff := startOff + 2 in
        Ret (labels, startOff - offset)
      else
        label <- subslice buffer (startOff + 1) (startOff + 1 + len);;
        let label := string_of label in
        let startOff := startOff + (len + 1) in
        c <- index buffer len;;
        if byte_val c =? 0 then
          let labels := (labels ++ label)%string in
          let startOff := startOff + 1 in
          Ret (labels, startOff - offset)
        else
          parseDomainName_loop fuel' buffer offset
            (labels ++ (label ++ "."))%string startOff
  end.

Definition parseDomainName (fuel : nat) (buffer : slice) (offset : Z)
    : outcome (string * Z) :=
  parseDomainName_loop fuel buffer offset "" offset.

(** [parseResource] *)
Definition parseResource (fuel : nat) (buffer : slice) (offset : Z)
    : outcome (Resource * Z) :=
  '(rname, n) <- parseDomainName fuel buffer offset;;
  let offset := offset + n in
  rtype <- (s <- subslice buffer offset (offset + 2);; BigEndian.Uint16 s);;
  let offset := offset + 2 in
  rclass <- (s <- subslice buffer offset (offset + 2);; BigEndian.Uint16 s);;
  let offset := offset + 2 in
  rttl <- (s <- subslice buffer offset (offset + 4);; BigEndian.Uint32 s);;
  let offset := offset + 4 in
  rdlen <- (s <- subslice buffer offset (offset + 2);; BigEndian.Uint16 s);;
  let offset := offset + 2 in
  rddata <-
    (if (rtype =? 2) && (rclass =? 1) then
       rdataBuffer <- subslice buffer offset (offset + rdlen);;
       '(domainName, _) <- parseDomainName fuel rdataBuffer 0;;
       Ret (bytes_of domainName)
     else
       s <- subslice buffer offset (offset + rdlen);;
       Ret (elems s));;
  let offset := offset + rdlen in
  Ret (mkResource rname rtype rclass rttl rdlen rddata, offset).

Definition parseQuestion (fuel : nat) := parseQuestion (parseDomainName fuel).
Definition Read (fuel : nat) := Read (parseDomainName fuel) (parseResource fuel).

End Part000.

(** ** Buffers of the specification's examples *)

(** [3,'w','w','w',3,'c','o','m',0] *)
Definition www_com : slice := bytes [3; 119; 119; 119; 3; 99; 111; 109; 0].

(** [0] *)
Definition root_name : slice := bytes [0].


(** ** Further buffers *)

(** A datagram that is only a header: ID 1, QdCount 1, nothing behind. *)
Definition header_one_question : slice :=
  bytes [0; 1; 0; 0; 0; 1; 0; 0; 0; 0; 0; 0].

(** The same header followed by the question (root name, type 1, class 1). *)
Definition query_root : slice :=
  bytes [0; 1; 0; 0; 0; 1; 0; 0; 0; 0; 0; 0; 0; 0; 1; 0; 1].

(** A header with ID 7, flags 0x0100 and no records. *)
Definition header_no_records : slice :=
  bytes [0; 7; 1; 0; 0; 0; 0; 0; 0; 0; 0; 0].

(** Twelve zero octets, then [3,'c','o','m'] and a pointer to offset 12. *)
Definition com_and_pointer : slice :=
  bytes [0; 0; 0; 0; 0; 0; 0; 0; 0; 0; 0; 0; 3; 99; 111; 109; 192; 12].

(** An A record of the root name: TTL 60, RDLENGTH 4, RDATA 1.2.3.4. *)
Definition a_record : slice :=
  bytes [0; 0; 1; 0; 1; 0; 0; 0; 60; 0; 4; 1; 2; 3; 4].

(** The same record cut off after two octets of RDATA. *)
Definition a_record_truncated : slice :=
  bytes [0; 0; 1; 0; 1; 0; 0; 0; 60; 0; 4; 1; 2].

(** A record of type 2, class 1 whose two RDATA octets are [1, 0]; the
    octet behind the zero name octet is skipped by the second parser
    file. *)
Definition ns_record : slice :=
  bytes [0; 0; 0; 2; 0; 1; 0; 0; 0; 60; 0; 2; 1; 0].

(** Five labels of 63 octets 'a' and the zero octet: a name of 319 octets. *)
Definition five_long_labels : slice :=
  bytes (flat_map (fun _ : nat => 63 :: repeat 97 63) [1; 2; 3; 4; 5]%nat ++ [0]).

(** A label of 200 octets (octet 100 of the buffer is zero) and a label of
    100 octets. *)
Definition two_long_labels : slice :=
  bytes ([200] ++ repeat 97 99 ++ [0] ++ repeat 97 100 ++ [100] ++ repeat 97 100).


(** An A record of "www.com": TTL 60, RDLENGTH 4, RDATA 1.2.3.4. *)
Definition www_a_record : slice :=
  bytes [3; 119; 119; 119; 3; 99; 111; 109; 0;
         0; 1; 0; 1; 0; 0; 0; 60; 0; 4; 1; 2; 3; 4].

(** Twelve zero octets, the label [3,'c','o','m'], and at offset 16 an A
    record whose name is a pointer to offset 12. *)
Definition com_pointer_record : slice :=
  bytes [0; 0; 0; 0; 0; 0; 0; 0; 0; 0; 0; 0; 3; 99; 111; 109;
         192; 12; 0; 1; 0; 1; 0; 0; 0; 60; 0; 4; 1; 2; 3; 4].


(** A header with QdCount 1 and a question the second parser file decodes:
    zero octet, one octet it skips, type 1, class 1. *)
Definition query_for_part000 : slice :=
  bytes [0; 1; 0; 0; 0; 1; 0; 0; 0; 0; 0; 0; 0; 9; 0; 1; 0; 1].

(** Octets 1 to 9 without a zero or a 192 among them. *)
Definition plain_octets : slice := bytes [1; 2; 3; 4; 5; 6; 7; 8; 9].

(** ** Definitions used to state the properties *)

(** The backing array of a slice, from its first element to its capacity. *)
Definition backing (s : slice) : list byte := elems s ++ spare s.

(** The [n] octets of the buffer that start at offset [lo]. *)
Definition octets (s : slice) (lo n : Z) : list byte :=
  firstn (Z.to_nat n) (skipn (Z.to_nat lo) (backing s)).

(** The unsigned integer a sequence of octets denotes in network byte order. *)
Definition big_endian (l : list byte) : Z :=
  fold_left (fun acc b => acc * 256 + byte_val b) l 0.

(** The header the specification describes: six big-endian 16-bit integers
    at offsets 0, 2, 4, 6, 8 and 10. *)
Definition header_at_0 (buffer : slice) : Header :=
  mkHeader (big_endian (octets buffer 0 2)) (big_endian (octets buffer 2 2))
           (big_endian (octets buffer 4 2)) (big_endian (octets buffer 6 2))
           (big_endian (octets buffer 8 2)) (big_endian (octets buffer 10 2)).

(** The wire form of a sequence of uncompressed labels: each label behind its
    length octet, then the zero octet. *)
Fixpoint wire (labels : list (list byte)) : list byte :=
  match labels with
  | [] => [x00]
  | l :: labels' => octet (Z.of_nat (List.length l)) :: l ++ wire labels'
  end.

(** The wire form of labels that end in a pointer: octet 192, then the
    octet [t] of the pointed-to offset. *)
Fixpoint wire_then_pointer (labels : list (list byte)) (t : byte) : list byte :=
  match labels with
  | [] => [octet 192; t]
  | l :: labels' =>
      octet (Z.of_nat (List.length l)) :: l ++ wire_then_pointer labels' t
  end.

(** The labels, each with a dot behind it. *)
Fixpoint dotted (labels : list (list byte)) : string :=
  match labels with
  | [] => ""
  | l :: labels' => ((string_of_list_byte l ++ ".") ++ dotted labels')%string
  end.

(** Sum over the labels of (1 + label length). *)
Fixpoint label_octets (labels : list (list byte)) : Z :=
  match labels with
  | [] => 0
  | l :: labels' => 1 + Z.of_nat (List.length l) + label_octets labels'
  end.

(** A call has come to an end: it returned or it panicked. *)
Definition finished {A : Type} (o : outcome A) : Prop :=
  match o with
  | OutOfFuel => False
  | _ => True
  end.

(** ** The wire format of RFC 1035, for round trips *)

(** A 16-bit and a 32-bit integer in network byte order. *)
Definition encode16 (v : Z) : list byte := [octet (v / 256); octet (v mod 256)].

Definition encode32 (v : Z) : list byte :=
  [octet (v / 16777216); octet (v / 65536 mod 256); octet (v / 256 mod 256);
   octet (v mod 256)].

Definition encode_header (h : Header) : list byte :=
  encode16 (ID h) ++ encode16 (Flags h) ++ encode16 (QdCount h)
  ++ encode16 (AnCount h) ++ encode16 (NsCount h) ++ encode16 (ArCount h).

(** The name the labels denote: joined with dots. *)
Definition join_labels (labels : list (list byte)) : string :=
  String.concat "." (map string_of_list_byte labels).

(** Labels that parser.go takes as such: 1 to 255 octets each. *)
Definition wf_labels (labels : list (list byte)) : Prop :=
  Forall (fun l => 1 <= Z.of_nat (List.length l) <= 255) labels.

(** A question and a resource record before they are put on the wire. *)
Record wire_question : Type := mkWireQuestion {
  wq_labels : list (list byte);
  wq_type : Z;
  wq_class : Z
}.

Record wire_resource : Type := mkWireResource {
  wr_labels : list (list byte);
  wr_type : Z;
  wr_class : Z;
  wr_ttl : Z;
  wr_data : list byte
}.

Definition encode_question (q : wire_question) : list byte :=
  wire (wq_labels q) ++ encode16 (wq_type q) ++ encode16 (wq_class q).

Definition encode_resource (r : wire_resource) : list byte :=
  wire (wr_labels r) ++ encode16 (wr_type r) ++ encode16 (wr_class r)
  ++ encode32 (wr_ttl r) ++ encode16 (Z.of_nat (List.length (wr_data r)))
  ++ wr_data r.

Definition wf_question (q : wire_question) : Prop :=
  wf_labels (wq_labels q) /\ 0 <= wq_type q < 65536 /\ 0 <= wq_class q < 65536.

Definition wf_resource (r : wire_resource) : Prop :=
  wf_labels (wr_labels r) /\ 0 <= wr_type r < 65536 /\ 0 <= wr_class r < 65536
  /\ 0 <= wr_ttl r < 4294967296 /\ Z.of_nat (List.length (wr_data r)) < 65536.

(** What the decoder is to make of them. *)
Definition decoded_question (q : wire_question) : Question :=
  mkQuestion (join_labels (wq_labels q)) (wq_type q) (wq_class q).

Definition decoded_resource (r : wire_resource) : Resource :=
  mkResource (join_labels (wr_labels r)) (wr_type r) (wr_class r) (wr_ttl r)
    (Z.of_nat (List.length (wr_data r))) (wr_data r).

(** The header that counts the records of a message. *)
Definition counting_header (id flags : Z)
    (questions : list wire_question)
    (answers authorities additionals : list wire_resource) : Header :=
  mkHeader id flags (Z.of_nat (List.length questions))
    (Z.of_nat (List.length answers)) (Z.of_nat (List.length authorities))
    (Z.of_nat (List.length additionals)).

Definition encode_message (id flags : Z)
    (questions : list wire_question)
    (answers authorities additionals : list wire_resource) : list byte :=
  encode_header (counting_header id flags questions answers authorities additionals)
  ++ flat_map encode_question questions
  ++ flat_map encode_resource answers
  ++ flat_map encode_resource authorities
  ++ flat_map encode_resource additionals.

(** ** main.go: the registry and the cache *)

Module Main.

(** Go's [==] on [parser.Question], the key type of both maps. *)
Definition Question_eqb (a b : Question) : bool :=
  String.eqb (QName a) (QName b) && (QType a =? QType b)
  && (QClass a =? QClass b).

(** [map[parser.Question]V], by its lookups. *)
Definition qmap (V : Type) : Type := Question -> option V.

Definition empty {V : Type} : qmap V := fun _ => None.

(** [m[q] = v] *)
Definition store {V : Type} (m : qmap V) (q : Question) (v : V) : qmap V :=
  fun k => if Question_eqb k q then Some v else m k.

(** [for _, q := range question.Questions {
       registryMap[q] = clientAddr.String() }] *)
Fixpoint register (questions : list Question) (clientAddr : string)
    (registryMap : qmap string) : qmap string :=
  match questions with
  | [] => registryMap
  | q :: questions' =>
      register questions' clientAddr (store registryMap q clientAddr)
  end.

(** [conn.WriteToUDP(datagram, addr)] *)
Inductive sent : Type := WriteToUDP (datagram : list byte) (addr : string).

(** [for _, q := range answer.Questions {
       cacheDnsResolutions[q] = answer.Answers[0]
       if addr, ok := registryMap[q]; ok {
         clientUdpAddr, _ := net.ResolveUDPAddr("udp", addr)
         conn.WriteToUDP(buffer[:answerCount], clientUdpAddr) } }]
    with the datagram [buffer[:answerCount]] as an argument: what is sent and
    how the loop ends. *)
Fixpoint relay (questions : list Question) (answers : list Resource)
    (datagram : list byte) (registryMap : qmap string)
    (cacheDnsResolutions : qmap Resource)
    : list sent * outcome (qmap Resource) :=
  match questions with
  | [] => ([], Ret cacheDnsResolutions)
  | q :: questions' =>
      match answers with
      | [] => ([], Panic IndexOutOfRange)
      | first :: _ =>
          let cacheDnsResolutions := store cacheDnsResolutions q first in
          let out :=
            match registryMap q with
            | Some addr => [WriteToUDP datagram addr]
            | None => []
            end in
          let (out', result) :=
            relay questions' answers datagram registryMap cacheDnsResolutions in
          (out ++ out', result)
      end
  end.

End Main.

(** The question "www.com", type 1, class 1, and an answer to it. *)
Definition www_com_question : wire_question :=
  mkWireQuestion [map octet [119; 119; 119]; map octet [99; 111; 109]] 1 1.

Definition www_com_answer : wire_resource :=
  mkWireResource [map octet [119; 119; 119]; map octet [99; 111; 109]] 1 1 60
    (map octet [1; 2; 3; 4]).


(** Closed side conditions on concrete buffers are settled by evaluation. *)
Ltac by_evaluation :=
  vm_compute; repeat split; try reflexivity; try (intro; discriminate).

(** Well-formedness of concrete wire records likewise. *)
Ltac well_formed :=
  repeat first
    [ apply Forall_nil | apply Forall_cons | split
    | progress unfold wf_question, wf_resource, wf_labels ];
  try (vm_compute; first [reflexivity | intro; discriminate]).

(** ** Bytes, slices and big-endian reads *)

Lemma byte_val_range (b : byte) : 0 <= byte_val b < 256.
Proof.
  unfold byte_val. pose proof (Byte.to_N_bounded b). lia.
Qed.

Lemma byte_val_octet (z : Z) : 0 <= z < 256 -> byte_val (octet z) = z.
Proof.
  intros Hz. unfold byte_val, octet.
  destruct (Byte.of_N (Z.to_N z)) as [b|] eqn:E.
  - apply Byte.to_of_N in E. rewrite E. lia.
  - apply Byte.of_N_None_iff in E. lia.
Qed.

Lemma len_nonneg (s : slice) : 0 <= len s.
Proof. unfold len. lia. Qed.

Lemma len_le_cap (s : slice) : len s <= cap s.
Proof. unfold len, cap. rewrite length_app. lia. Qed.

Lemma index_finished (s : slice) (i : Z) : finished (index s i).
Proof.
  unfold index. destruct (i <? 0); [exact I|].
  destruct (nth_error _ _); exact I.
Qed.

Lemma index_Ret_range (s : slice) (i : Z) (b : byte) :
  index s i = Ret b -> 0 <= i < len s.
Proof.
  unfold index, len. destruct (Z.ltb_spec i 0); [discriminate|].
  destruct (nth_error (elems s) (Z.to_nat i)) eqn:E; [|discriminate].
  intros _. assert (Z.to_nat i < List.length (elems s))%nat
    by (apply nth_error_Some; congruence). lia.
Qed.

Lemma index_out_of_range (s : slice) (i : Z) :
  i < 0 \/ len s <= i -> index s i = Panic IndexOutOfRange.
Proof.
  unfold index, len. intros H. destruct (Z.ltb_spec i 0); [reflexivity|].
  destruct (nth_error (elems s) (Z.to_nat i)) eqn:E; [|reflexivity].
  assert (Z.to_nat i < List.length (elems s))%nat
    by (apply nth_error_Some; congruence). lia.
Qed.

Lemma index_in_range (s : slice) (i : Z) :
  0 <= i < len s ->
  index s i = Ret (nth (Z.to_nat i) (elems s) x00).
Proof.
  unfold index, len. intros H. destruct (Z.ltb_spec i 0); [lia|].
  rewrite (nth_error_nth' _ x00) by lia. reflexivity.
Qed.

Lemma subslice_finished (s : slice) (lo hi : Z) : finished (subslice s lo hi).
Proof. unfold subslice. destruct (_ && _); exact I. Qed.

Lemma subslice_in_range (s : slice) (lo hi : Z) :
  0 <= lo <= hi -> hi <= cap s ->
  subslice s lo hi =
  Ret (mkSlice (octets s lo (hi - lo)) (skipn (Z.to_nat hi) (backing s))).
Proof.
  intros H1 H2. unfold subslice.
  replace ((0 <=? lo) && (lo <=? hi) && (hi <=? cap s)) with true; [reflexivity|].
  symmetry. rewrite !andb_true_iff, !Z.leb_le. lia.
Qed.

Lemma subslice_out_of_range (s : slice) (lo hi : Z) :
  lo < 0 \/ hi < lo \/ cap s < hi ->
  subslice s lo hi = Panic SliceBoundsOutOfRange.
Proof.
  intros H. unfold subslice.
  replace ((0 <=? lo) && (lo <=? hi) && (hi <=? cap s)) with false; [reflexivity|].
  symmetry. rewrite !andb_false_iff, !Z.leb_gt. lia.
Qed.

Lemma backing_length (s : slice) : Z.of_nat (List.length (backing s)) = cap s.
Proof. reflexivity. Qed.

Lemma octets_length (s : slice) (lo n : Z) :
  0 <= lo -> 0 <= n -> lo + n <= cap s ->
  List.length (octets s lo n) = Z.to_nat n.
Proof.
  intros Hlo Hn Hc. unfold octets.
  rewrite length_firstn, length_skipn.
  pose proof (backing_length s). lia.
Qed.

(** [a | b<<k] adds up when [a] fits in [k] bits. *)
Lemma lor_shiftl_add (a b k : Z) :
  0 <= k -> 0 <= a < 2 ^ k -> Z.lor a (Z.shiftl b k) = a + b * 2 ^ k.
Proof.
  intros Hk Ha.
  assert (Hland : Z.land a (Z.shiftl b k) = 0).
  { apply Z.bits_inj'. intros n Hn.
    rewrite Z.land_spec, Z.bits_0.
    destruct (Z.lt_ge_cases n k) as [Hlt|Hge].
    - rewrite Z.shiftl_spec_low by assumption. apply andb_false_r.
    - rewrite <- (Z.mod_small a (2 ^ k)) by assumption.
      rewrite Z.mod_pow2_bits_high by lia. reflexivity. }
  rewrite <- Z.lxor_lor by assumption.
  rewrite <- Z.add_nocarry_lxor by assumption.
  rewrite Z.shiftl_mul_pow2 by assumption. reflexivity.
Qed.

Lemma big_endian_2 (b0 b1 : byte) :
  big_endian [b0; b1] = 256 * byte_val b0 + byte_val b1.
Proof. unfold big_endian. cbn [fold_left]. lia. Qed.

Lemma big_endian_4 (b0 b1 b2 b3 : byte) :
  big_endian [b0; b1; b2; b3] =
  16777216 * byte_val b0 + 65536 * byte_val b1 + 256 * byte_val b2 + byte_val b3.
Proof. unfold big_endian. cbn [fold_left]. lia. Qed.

Lemma big_endian_2_range (l : list byte) :
  List.length l = 2%nat -> 0 <= big_endian l < 65536.
Proof.
  destruct l as [|b0 [|b1 [|? ?]]]; try discriminate. intros _.
  rewrite big_endian_2.
  pose proof (byte_val_range b0). pose proof (byte_val_range b1). lia.
Qed.

Lemma lor_mul_add (a b k : Z) :
  0 <= k -> 0 <= a < 2 ^ k -> Z.lor a (b * 2 ^ k) = a + b * 2 ^ k.
Proof.
  intros Hk Ha. rewrite <- lor_shiftl_add by assumption.
  rewrite Z.shiftl_mul_pow2 by assumption. reflexivity.
Qed.

Lemma Uint16_pair (b0 b1 : byte) (rest : list byte) :
  BigEndian.Uint16 (mkSlice [b0; b1] rest) = Ret (big_endian [b0; b1]).
Proof.
  unfold BigEndian.Uint16.
  change (index (mkSlice [b0; b1] rest) 1) with (Ret b1).
  change (index (mkSlice [b0; b1] rest) 0) with (Ret b0).
  unfold bind. f_equal.
  pose proof (byte_val_range b0). pose proof (byte_val_range b1).
  rewrite Z.shiftl_mul_pow2 by lia.
  rewrite Z.mod_small by lia.
  rewrite lor_mul_add by lia.
  rewrite big_endian_2. lia.
Qed.

Lemma Uint32_quad (b0 b1 b2 b3 : byte) (rest : list byte) :
  BigEndian.Uint32 (mkSlice [b0; b1; b2; b3] rest) =
  Ret (big_endian [b0; b1; b2; b3]).
Proof.
  unfold BigEndian.Uint32.
  change (index (mkSlice [b0; b1; b2; b3] rest) 3) with (Ret b3).
  change (index (mkSlice [b0; b1; b2; b3] rest) 2) with (Ret b2).
  change (index (mkSlice [b0; b1; b2; b3] rest) 1) with (Ret b1).
  change (index (mkSlice [b0; b1; b2; b3] rest) 0) with (Ret b0).
  unfold bind. f_equal.
  pose proof (byte_val_range b0). pose proof (byte_val_range b1).
  pose proof (byte_val_range b2). pose proof (byte_val_range b3).
  rewrite !Z.shiftl_mul_pow2 by lia.
  rewrite !Z.mod_small by lia.
  rewrite (lor_mul_add (byte_val b3)) by lia.
  rewrite (lor_mul_add _ (byte_val b1)) by lia.
  rewrite (lor_mul_add _ (byte_val b0)) by lia.
  rewrite big_endian_4. lia.
Qed.

Lemma bind_finished {A B : Type} (m : outcome A) (k : A -> outcome B) :
  finished m -> (forall a, m = Ret a -> finished (k a)) -> finished (bind m k).
Proof.
  destruct m; simpl; intros Hm Hk; [apply Hk; reflexivity | exact I | exact Hm].
Qed.

Lemma finished_not_OutOfFuel {A : Type} (o : outcome A) :
  finished o <-> o <> OutOfFuel.
Proof.
  destruct o; simpl; split; intros H; try exact I; try discriminate;
    try contradiction; try (apply H; reflexivity).
Qed.

Lemma octets_2 (s : slice) (off : Z) :
  0 <= off -> off + 2 <= cap s ->
  exists b0 b1, octets s off 2 = [b0; b1].
Proof.
  intros H1 H2. pose proof (octets_length s off 2 H1 ltac:(lia) H2) as L.
  destruct (octets s off 2) as [|b0 [|b1 [|? ?]]]; try discriminate.
  eauto.
Qed.

Lemma octets_4 (s : slice) (off : Z) :
  0 <= off -> off + 4 <= cap s ->
  exists b0 b1 b2 b3, octets s off 4 = [b0; b1; b2; b3].
Proof.
  intros H1 H2. pose proof (octets_length s off 4 H1 ltac:(lia) H2) as L.
  destruct (octets s off 4) as [|b0 [|b1 [|b2 [|b3 [|? ?]]]]]; try discriminate.
  eauto 6.
Qed.

(** [binary.BigEndian.Uint16(buffer[off : off+2])] *)
Lemma read16_in_range (buffer : slice) (off : Z) :
  0 <= off -> off + 2 <= cap buffer ->
  (s <- subslice buffer off (off + 2);; BigEndian.Uint16 s) =
  Ret (big_endian (octets buffer off 2)).
Proof.
  intros H1 H2. rewrite subslice_in_range by lia.
  replace (off + 2 - off) with 2 by lia.
  destruct (octets_2 buffer off H1 H2) as (b0 & b1 & E). rewrite E.
  apply Uint16_pair.
Qed.

Lemma read16_out_of_range (buffer : slice) (off : Z) :
  off < 0 \/ cap buffer < off + 2 ->
  (s <- subslice buffer off (off + 2);; BigEndian.Uint16 s) =
  Panic SliceBoundsOutOfRange.
Proof.
  intros H. rewrite subslice_out_of_range by lia. reflexivity.
Qed.

Lemma read16_finished (buffer : slice) (off : Z) :
  finished (s <- subslice buffer off (off + 2);; BigEndian.Uint16 s).
Proof.
  destruct (Z.lt_ge_cases off 0); [rewrite read16_out_of_range by lia; exact I|].
  destruct (Z.lt_ge_cases (cap buffer) (off + 2)).
  - rewrite read16_out_of_range by lia. exact I.
  - rewrite read16_in_range by lia. exact I.
Qed.

(** [binary.BigEndian.Uint32(buffer[off : off+4])] *)
Lemma read32_in_range (buffer : slice) (off : Z) :
  0 <= off -> off + 4 <= cap buffer ->
  (s <- subslice buffer off (off + 4);; BigEndian.Uint32 s) =
  Ret (big_endian (octets buffer off 4)).
Proof.
  intros H1 H2. rewrite subslice_in_range by lia.
  replace (off + 4 - off) with 4 by lia.
  destruct (octets_4 buffer off H1 H2) as (b0 & b1 & b2 & b3 & E). rewrite E.
  apply Uint32_quad.
Qed.

Lemma read32_out_of_range (buffer : slice) (off : Z) :
  off < 0 \/ cap buffer < off + 4 ->
  (s <- subslice buffer off (off + 4);; BigEndian.Uint32 s) =
  Panic SliceBoundsOutOfRange.
Proof.
  intros H. rewrite subslice_out_of_range by lia. reflexivity.
Qed.

Lemma read32_finished (buffer : slice) (off : Z) :
  finished (s <- subslice buffer off (off + 4);; BigEndian.Uint32 s).
Proof.
  destruct (Z.lt_ge_cases off 0); [rewrite read32_out_of_range by lia; exact I|].
  destruct (Z.lt_ge_cases (cap buffer) (off + 4)).
  - rewrite read32_out_of_range by lia. exact I.
  - rewrite read32_in_range by lia. exact I.
Qed.

(** ** Termination of parser.go's name loop *)

Lemma Parser_loop_finished (fuel : nat) :
  forall (buffer : slice) (offset : Z) (labels : list string) (startOff : Z),
  (0 < fuel)%nat ->
  startOff < 0 \/ len buffer - startOff < Z.of_nat fuel ->
  finished (Parser.parseDomainName_loop fuel buffer offset labels startOff).
Proof.
  induction fuel as [|fuel IH]; intros buffer offset labels startOff Hpos Hfuel;
    [lia|].
  cbn [Parser.parseDomainName_loop].
  apply bind_finished; [apply index_finished|].
  intros b Hb. apply index_Ret_range in Hb.
  destruct (byte_val b =? 0) eqn:Hz; [exact I|].
  apply bind_finished; [apply subslice_finished|].
  intros label _. apply Z.eqb_neq in Hz. pose proof (byte_val_range b).
  apply IH; lia.
Qed.

Lemma Parser_parseDomainName_finished (buffer : slice) (offset : Z) :
  finished (Parser.parseDomainName buffer offset).
Proof.
  unfold Parser.parseDomainName. apply Parser_loop_finished; [lia|].
  unfold len. lia.
Qed.

(** More fuel does not change a run that has come to an end. *)
Lemma Parser_loop_fuel_mono (fuel : nat) :
  forall (fuel' : nat) (buffer : slice) (offset : Z) (labels : list string)
         (startOff : Z),
  (fuel <= fuel')%nat ->
  finished (Parser.parseDomainName_loop fuel buffer offset labels startOff) ->
  Parser.parseDomainName_loop fuel' buffer offset labels startOff =
  Parser.parseDomainName_loop fuel buffer offset labels startOff.
Proof.
  induction fuel as [|fuel IH]; intros fuel' buffer offset labels startOff Hle Hfin;
    [contradiction|].
  destruct fuel' as [|fuel']; [lia|].
  cbn [Parser.parseDomainName_loop] in *.
  destruct (index buffer startOff) as [b| |]; cbn [bind] in *; try reflexivity.
  destruct (byte_val b =? 0); [reflexivity|].
  destruct (subslice buffer (startOff + 1) (startOff + 1 + byte_val b));
    cbn [bind] in *; try reflexivity.
  apply IH; [lia|assumption].
Qed.

(** ** The shared text: header, section loops and [Read] *)

Lemma subslice_prefix_backing (s s' : slice) (hi : Z) :
  subslice s 0 hi = Ret s' -> backing s' = backing s.
Proof.
  unfold subslice. destruct (_ && _); [|discriminate].
  intros E. injection E as <-. unfold backing. cbn [elems spare].
  rewrite Z.sub_0_r. apply firstn_skipn.
Qed.

Lemma subslice_prefix_elems (s : slice) (n : Z) :
  0 <= n <= len s ->
  subslice s 0 n = Ret (mkSlice (firstn (Z.to_nat n) (elems s))
                                (skipn (Z.to_nat n) (backing s))).
Proof.
  intros H. pose proof (len_le_cap s).
  rewrite subslice_in_range by lia. unfold octets, backing.
  rewrite Z.sub_0_r. change (Z.to_nat 0) with 0%nat. rewrite skipn_O.
  rewrite firstn_app.
  replace (Z.to_nat n - List.length (elems s))%nat with 0%nat
    by (unfold len in H; lia).
  rewrite firstn_O, app_nil_r. reflexivity.
Qed.

Lemma cap_of_backing (s s' : slice) : backing s' = backing s -> cap s' = cap s.
Proof. unfold cap, backing. intros ->. reflexivity. Qed.

Lemma octets_of_backing (s s' : slice) (lo n : Z) :
  backing s' = backing s -> octets s' lo n = octets s lo n.
Proof. unfold octets. intros ->. reflexivity. Qed.

Lemma read16_between (buffer : slice) (lo hi : Z) :
  0 <= lo -> hi = lo + 2 -> hi <= cap buffer ->
  (s <- subslice buffer lo hi;; BigEndian.Uint16 s) =
  Ret (big_endian (octets buffer lo 2)).
Proof. intros H1 -> H2. apply read16_in_range; assumption. Qed.

Lemma parseHeader_in_range (buffer : slice) :
  12 <= cap buffer -> parseHeader buffer = Ret (header_at_0 buffer).
Proof.
  intros H. unfold parseHeader.
  rewrite !read16_between by lia. reflexivity.
Qed.

(** [parseHeader(buffer[:12])], as [Read] calls it. *)
Lemma parseHeader_of_prefix (buffer : slice) :
  12 <= len buffer ->
  (hb <- subslice buffer 0 12;; parseHeader hb) = Ret (header_at_0 buffer).
Proof.
  intros H. pose proof (len_le_cap buffer).
  destruct (subslice buffer 0 12) as [hb| |] eqn:E.
  - cbn [bind]. pose proof (subslice_prefix_backing _ _ _ E) as B.
    rewrite parseHeader_in_range by (rewrite (cap_of_backing _ _ B); lia).
    unfold header_at_0. rewrite !(octets_of_backing _ _ _ _ B). reflexivity.
  - rewrite subslice_in_range in E by lia. discriminate.
  - rewrite subslice_in_range in E by lia. discriminate.
Qed.

Lemma header_counts_range (buffer : slice) :
  12 <= cap buffer ->
  let h := header_at_0 buffer in
  0 <= QdCount h < 65536 /\ 0 <= AnCount h < 65536 /\
  0 <= NsCount h < 65536 /\ 0 <= ArCount h < 65536.
Proof.
  intros H. cbn [header_at_0 QdCount AnCount NsCount ArCount].
  repeat split; try apply big_endian_2_range;
    try (rewrite octets_length by lia; reflexivity).
  all: apply big_endian_2_range; rewrite octets_length by lia; reflexivity.
Qed.

Lemma parse_section_length {A : Type} (parse : slice -> Z -> outcome (A * Z))
    (count : nat) :
  forall (buffer : slice) (index : Z) (xs ys : list A) (index' : Z),
  parse_section parse count buffer index xs = Ret (ys, index') ->
  List.length ys = (List.length xs + count)%nat.
Proof.
  induction count as [|count IH]; intros buffer index xs ys index' E;
    cbn [parse_section] in E.
  - injection E as <- _. lia.
  - destruct (parse buffer index) as [[x newIndex]| |]; cbn [bind] in E;
      try discriminate.
    apply IH in E. rewrite length_app in E. cbn [List.length] in E. lia.
Qed.

Lemma parse_section_finished {A : Type} (parse : slice -> Z -> outcome (A * Z))
    (count : nat) :
  (forall buffer index, finished (parse buffer index)) ->
  forall (buffer : slice) (index : Z) (xs : list A),
  finished (parse_section parse count buffer index xs).
Proof.
  intros Hparse. induction count as [|count IH]; intros buffer index xs;
    cbn [parse_section]; [exact I|].
  apply bind_finished; [apply Hparse|].
  intros [x newIndex] _. apply IH.
Qed.

Section DecoderFacts.

Variable parseDomainName : slice -> Z -> outcome (string * Z).
Variable parseResource : slice -> Z -> outcome (Resource * Z).

Let question := parseQuestion parseDomainName.
Let sections := read_sections parseDomainName parseResource.
Let read := Read parseDomainName parseResource.

Lemma parseQuestion_finished :
  (forall buffer offset, finished (parseDomainName buffer offset)) ->
  forall buffer offset, finished (question buffer offset).
Proof.
  intros Hname buffer offset. unfold question, parseQuestion.
  apply bind_finished; [apply Hname|]. intros [qname n] _.
  apply bind_finished; [apply read16_finished|]. intros qtype _.
  apply bind_finished; [apply read16_finished|]. intros qclass _.
  exact I.
Qed.

Lemma read_sections_finished :
  (forall buffer offset, finished (parseDomainName buffer offset)) ->
  (forall buffer offset, finished (parseResource buffer offset)) ->
  forall h buffer, finished (sections h buffer).
Proof.
  intros Hname Hres h buffer.
  unfold sections, read_sections.
  apply bind_finished;
    [apply parse_section_finished, parseQuestion_finished, Hname|].
  intros [questions i1] _.
  apply bind_finished; [apply parse_section_finished, Hres|].
  intros [answers i2] _.
  apply bind_finished; [apply parse_section_finished, Hres|].
  intros [authorities i3] _.
  apply bind_finished; [apply parse_section_finished, Hres|].
  intros [additionals i4] _. exact I.
Qed.

(** A payload that the section loops return holds the header it was given
    and as many records per section as that header counts. *)
Lemma read_sections_counts (h : Header) (buffer : slice) (p : Payload) :
  sections h buffer = Ret p ->
  PHeader p = h /\
  List.length (Questions p) = Z.to_nat (QdCount h) /\
  List.length (Answers p) = Z.to_nat (AnCount h) /\
  List.length (Authorities p) = Z.to_nat (NsCount h) /\
  List.length (Additionals p) = Z.to_nat (ArCount h).
Proof.
  unfold sections, read_sections. intros E.
  destruct (parse_section _ (Z.to_nat (QdCount h)) buffer 12 [])
    as [[questions i1]| |] eqn:E1; cbn [bind] in E; try discriminate.
  destruct (parse_section _ (Z.to_nat (AnCount h)) buffer i1 [])
    as [[answers i2]| |] eqn:E2; cbn [bind] in E; try discriminate.
  destruct (parse_section _ (Z.to_nat (NsCount h)) buffer i2 [])
    as [[authorities i3]| |] eqn:E3; cbn [bind] in E; try discriminate.
  destruct (parse_section _ (Z.to_nat (ArCount h)) buffer i3 [])
    as [[additionals i4]| |] eqn:E4; cbn [bind] in E; try discriminate.
  injection E as <-. cbn.
  apply parse_section_length in E1, E2, E3, E4. cbn in E1, E2, E3, E4.
  repeat split; assumption.
Qed.

(** How [Read] ends: its valid-length argument only has to be sliceable. *)
Lemma Read_outcome (buffer : slice) (n : Z) :
  0 <= n <= cap buffer ->
  snd (read buffer n) =
  if len buffer <? 12 then Ret (zero_Payload, Some short_header_error)
  else p <- sections (header_at_0 buffer) buffer;; Ret (p, None).
Proof.
  intros Hn. unfold read, Read.
  rewrite subslice_in_range by lia.
  destruct (Z.ltb_spec (len buffer) 12); [reflexivity|].
  rewrite parseHeader_of_prefix by assumption.
  fold sections.
  destruct (sections (header_at_0 buffer) buffer); reflexivity.
Qed.

(** What [Read] prints: the dump of the first [n] bytes, then output that
    does not depend on [n]. *)
Lemma Read_output (buffer : slice) :
  exists rest, forall n, 0 <= n <= len buffer ->
  fst (read buffer n) =
  dump_from 0 (firstn (Z.to_nat n) (elems buffer)) ++ rest.
Proof.
  destruct (Z.ltb_spec (len buffer) 12) as [Hlt|Hge].
  - exists []. intros n Hn. unfold read, Read.
    rewrite subslice_prefix_elems by assumption. cbn [elems].
    destruct (Z.ltb_spec (len buffer) 12); [|lia].
    cbn [fst]. rewrite app_nil_r. reflexivity.
  - exists (PrintHeader (header_at_0 buffer) ::
            match sections (header_at_0 buffer) buffer with
            | Ret payload => map PrintQuestion (Questions payload)
                               ++ map PrintAnswer (Answers payload)
            | _ => []
            end).
    intros n Hn. unfold read, Read.
    rewrite subslice_prefix_elems by assumption. cbn [elems].
    destruct (Z.ltb_spec (len buffer) 12); [lia|].
    rewrite parseHeader_of_prefix by assumption.
    fold sections.
    destruct (sections (header_at_0 buffer) buffer); cbn [fst];
      rewrite <- ?app_assoc; cbn [app]; rewrite ?app_nil_r; reflexivity.
Qed.

End DecoderFacts.

(** ** Go strings *)

Lemma string_length_append (s1 s2 : string) :
  String.length (s1 ++ s2)%string = (String.length s1 + String.length s2)%nat.
Proof.
  induction s1 as [|c s1 IH]; cbn [String.append String.length];
    [reflexivity | rewrite IH; reflexivity].
Qed.

Lemma string_length_of_bytes (l : list byte) :
  String.length (string_of_list_byte l) = List.length l.
Proof.
  unfold string_of_list_byte.
  induction l as [|b l IH]; cbn [map string_of_list_ascii String.length List.length];
    [reflexivity | rewrite IH; reflexivity].
Qed.

(** Joining one more label adds at most the label and one dot. *)
Lemma join_snoc_length (labels : list string) (l : string) :
  (String.length (String.concat "." (labels ++ [l]))
   <= String.length (String.concat "." labels) + 1 + String.length l)%nat.
Proof.
  induction labels as [|x [|y xs] IH].
  - cbn. lia.
  - cbn. rewrite string_length_append. cbn. lia.
  - change (String.concat "." ((x :: y :: xs) ++ [l]))
      with (x ++ "." ++ String.concat "." ((y :: xs) ++ [l]))%string.
    change (String.concat "." (x :: y :: xs))
      with (x ++ "." ++ String.concat "." (y :: xs))%string.
    rewrite !string_length_append. cbn [String.length]. lia.
Qed.

(** ** parser.go: what the name loop returns *)

Lemma subslice_elems_length (s label : slice) (lo hi : Z) :
  subslice s lo hi = Ret label ->
  0 <= lo <= hi /\ hi <= cap s /\
  elems label = octets s lo (hi - lo) /\
  Z.of_nat (List.length (elems label)) = hi - lo.
Proof.
  intros E.
  destruct (Z.lt_ge_cases lo 0);
    [rewrite subslice_out_of_range in E by lia; discriminate|].
  destruct (Z.lt_ge_cases hi lo);
    [rewrite subslice_out_of_range in E by lia; discriminate|].
  destruct (Z.lt_ge_cases (cap s) hi);
    [rewrite subslice_out_of_range in E by lia; discriminate|].
  rewrite subslice_in_range in E by lia. injection E as <-.
  cbn [elems]. rewrite octets_length by lia. repeat split; lia.
Qed.

(** The name is never longer than the bytes walked over: the invariant of
    the loop is that the joined labels fit in [startOff - offset]. *)
Lemma Parser_loop_bound (fuel : nat) :
  forall (buffer : slice) (offset : Z) (labels : list string) (startOff : Z)
         (name : string) (n : Z),
  Z.of_nat (String.length (String.concat "." labels)) <= startOff - offset ->
  Parser.parseDomainName_loop fuel buffer offset labels startOff = Ret (name, n) ->
  Z.of_nat (String.length name) < n /\ offset + n <= len buffer /\
  0 <= startOff < offset + n.
Proof.
  induction fuel as [|fuel IH]; intros buffer offset labels startOff name n Hinv E;
    cbn [Parser.parseDomainName_loop] in E; [discriminate|].
  destruct (index buffer startOff) as [b| |] eqn:Hb; cbn [bind] in E;
    try discriminate.
  apply index_Ret_range in Hb.
  destruct (byte_val b =? 0) eqn:Hz.
  - injection E as <- <-. lia.
  - destruct (subslice buffer (startOff + 1) (startOff + 1 + byte_val b))
      as [label| |] eqn:Hl; cbn [bind] in E; try discriminate.
    apply subslice_elems_length in Hl. destruct Hl as (_ & _ & _ & Hlen).
    pose proof (byte_val_range b).
    enough (Z.of_nat (String.length
              (String.concat "." (labels ++ [string_of label])))
            <= startOff + 1 + byte_val b - offset) as Hinv'
      by (destruct (IH _ _ _ _ _ _ Hinv' E) as (? & ? & ?); lia).
    pose proof (join_snoc_length labels (string_of label)) as J.
    unfold string_of in J at 2. rewrite string_length_of_bytes in J. lia.
Qed.

(** *** parser.go on uncompressed names *)

Lemma wire_length (ls : list (list byte)) :
  (List.length ls < List.length (wire ls))%nat.
Proof.
  induction ls as [|l ls IH]; cbn [wire List.length]; [lia|].
  rewrite length_app. lia.
Qed.

Lemma index_at_split (buffer : slice) (pre post : list byte) (b : byte) :
  elems buffer = pre ++ b :: post ->
  index buffer (Z.of_nat (List.length pre)) = Ret b.
Proof.
  intros E. unfold index.
  destruct (Z.ltb_spec (Z.of_nat (List.length pre)) 0); [lia|].
  rewrite Nat2Z.id, E, nth_error_app2 by lia.
  rewrite Nat.sub_diag. reflexivity.
Qed.

Lemma subslice_at_split (buffer : slice) (pre l post : list byte) :
  backing buffer = pre ++ l ++ post ->
  exists rest,
    subslice buffer (Z.of_nat (List.length pre))
             (Z.of_nat (List.length pre) + Z.of_nat (List.length l)) =
    Ret (mkSlice l rest).
Proof.
  intros E. eexists. rewrite subslice_in_range.
  - f_equal. f_equal. unfold octets. rewrite E, Nat2Z.id.
    rewrite skipn_app, skipn_all, Nat.sub_diag, skipn_O, app_nil_l.
    replace (Z.of_nat (List.length pre) + Z.of_nat (List.length l)
             - Z.of_nat (List.length pre)) with (Z.of_nat (List.length l)) by lia.
    rewrite Nat2Z.id, firstn_app, firstn_all, Nat.sub_diag, firstn_O.
    apply app_nil_r.
  - lia.
  - rewrite <- backing_length, E, !length_app. lia.
Qed.

Lemma Parser_loop_wire (ls : list (list byte)) :
  forall (fuel : nat) (buffer : slice) (offset : Z) (acc : list string)
         (pre post : list byte),
  elems buffer = pre ++ wire ls ++ post ->
  Forall (fun l => 1 <= Z.of_nat (List.length l) <= 63) ls ->
  (List.length ls < fuel)%nat ->
  Parser.parseDomainName_loop fuel buffer offset acc (Z.of_nat (List.length pre)) =
  Ret (String.concat "." (acc ++ map string_of_list_byte ls),
       Z.of_nat (List.length pre) + label_octets ls + 1 - offset).
Proof.
  induction ls as [|l ls IH]; intros fuel buffer offset acc pre post E Hls Hfuel;
    (destruct fuel as [|fuel]; [cbn [List.length] in Hfuel; lia|]);
    cbn [Parser.parseDomainName_loop wire] in *.
  - rewrite (index_at_split buffer pre post x00) by exact E. cbn [bind].
    change (byte_val x00 =? 0) with true. cbn [map label_octets].
    rewrite app_nil_r. do 2 f_equal. lia.
  - inversion Hls as [|? ? Hl Hls']; subst.
    rewrite <- app_comm_cons in E.
    rewrite (index_at_split buffer pre _ _ E). cbn [bind].
    rewrite byte_val_octet by lia.
    destruct (Z.eqb_spec (Z.of_nat (List.length l)) 0); [lia|].
    destruct (subslice_at_split buffer
                (pre ++ [octet (Z.of_nat (List.length l))]) l
                ((wire ls ++ post) ++ spare buffer)) as [rest Hsub].
    { unfold backing. rewrite E. rewrite <- ?app_assoc. cbn [app].
      rewrite <- ?app_assoc. reflexivity. }
    rewrite length_app in Hsub. cbn [List.length] in Hsub.
    replace (Z.of_nat (List.length pre + 1)) with (Z.of_nat (List.length pre) + 1)
      in Hsub by lia.
    rewrite Hsub. cbn [bind].
    replace (Z.of_nat (List.length pre) + 1 + Z.of_nat (List.length l))
      with (Z.of_nat (List.length (pre ++ octet (Z.of_nat (List.length l)) :: l)))
      by (rewrite length_app; cbn [List.length]; lia).
    rewrite (IH fuel buffer offset _ _ post).
    + unfold string_of. cbn [elems map label_octets].
      rewrite <- app_assoc. cbn [app]. do 2 f_equal.
      rewrite length_app. cbn [List.length]. lia.
    + rewrite E. rewrite <- ?app_assoc. cbn [app].
      rewrite <- ?app_assoc. reflexivity.
    + assumption.
    + cbn [List.length] in Hfuel. lia.
Qed.

(** parser.go decodes every uncompressed name to its labels joined with
    dots, and counts the label octets plus the zero octet. *)
Lemma Parser_parseDomainName_labels (buffer : slice) (ls : list (list byte))
    (pre post : list byte) :
  elems buffer = pre ++ wire ls ++ post ->
  Forall (fun l => 1 <= Z.of_nat (List.length l) <= 63) ls ->
  Parser.parseDomainName buffer (Z.of_nat (List.length pre)) =
  Ret (String.concat "." (map string_of_list_byte ls), label_octets ls + 1).
Proof.
  intros E Hls. unfold Parser.parseDomainName.
  rewrite (Parser_loop_wire ls _ buffer _ [] pre post E Hls).
  - cbn [app]. do 2 f_equal. lia.
  - rewrite E, !length_app. pose proof (wire_length ls). lia.
Qed.

(** *** parser.go: resource records *)

Lemma Parser_parseResource_finished (buffer : slice) (offset : Z) :
  finished (Parser.parseResource buffer offset).
Proof.
  unfold Parser.parseResource.
  apply bind_finished; [apply Parser_parseDomainName_finished|].
  intros [rname n] _.
  apply bind_finished; [apply read16_finished|]. intros rtype _.
  apply bind_finished; [apply read16_finished|]. intros rclass _.
  apply bind_finished; [apply read32_finished|]. intros rttl _.
  apply bind_finished; [apply read16_finished|]. intros rdlen _.
  apply bind_finished; [apply subslice_finished|]. intros rddata _.
  exact I.
Qed.

Lemma Parser_parseDomainName_bound (buffer : slice) (offset : Z)
    (name : string) (n : Z) :
  Parser.parseDomainName buffer offset = Ret (name, n) ->
  Z.of_nat (String.length name) < n /\ offset + n <= len buffer /\
  0 <= offset < offset + n.
Proof.
  unfold Parser.parseDomainName. apply Parser_loop_bound. cbn. lia.
Qed.

(** The record that starts with a decodable name at [offset]: the fixed
    fields are the big-endian integers behind the name, and RDATA is the
    [RDLENGTH] octets at the cursor behind them, whatever type and class
    are. *)
Lemma Parser_parseResource_fields (buffer : slice) (offset : Z)
    (name : string) (n : Z) :
  Parser.parseDomainName buffer offset = Ret (name, n) ->
  offset + n + 10 <= cap buffer ->
  Parser.parseResource buffer offset =
  let cursor := offset + n + 10 in
  let rdlen := big_endian (octets buffer (offset + n + 8) 2) in
  if cursor + rdlen <=? cap buffer then
    Ret (mkResource name
           (big_endian (octets buffer (offset + n) 2))
           (big_endian (octets buffer (offset + n + 2) 2))
           (big_endian (octets buffer (offset + n + 4) 4))
           rdlen
           (octets buffer cursor rdlen),
         cursor + rdlen)
  else Panic SliceBoundsOutOfRange.
Proof.
  intros Hname Hcap.
  destruct (Parser_parseDomainName_bound _ _ _ _ Hname) as (_ & _ & Hoff).
  unfold Parser.parseResource. rewrite Hname. cbn [bind]. cbv zeta.
  rewrite (read16_in_range buffer (offset + n)) by lia. cbn [bind].
  rewrite (read16_in_range buffer (offset + n + 2)) by lia. cbn [bind].
  rewrite (read32_in_range buffer (offset + n + 2 + 2)) by lia. cbn [bind].
  rewrite (read16_in_range buffer (offset + n + 2 + 2 + 4)) by lia. cbn [bind].
  replace (offset + n + 2 + 2 + 4 + 2) with (offset + n + 10) by lia.
  replace (offset + n + 2 + 2 + 4) with (offset + n + 8) by lia.
  replace (offset + n + 2 + 2) with (offset + n + 4) by lia.
  set (rdlen := big_endian (octets buffer (offset + n + 8) 2)).
  assert (0 <= rdlen < 65536) as Hrd
    by (apply big_endian_2_range; rewrite octets_length by lia; reflexivity).
  destruct (Z.leb_spec (offset + n + 10 + rdlen) (cap buffer)).
  - rewrite subslice_in_range by lia. cbn [bind elems].
    replace (offset + n + 10 + rdlen - (offset + n + 10)) with rdlen by lia.
    reflexivity.
  - rewrite subslice_out_of_range by lia. reflexivity.
Qed.

Lemma Parser_Read_finished (buffer : slice) (n : Z) :
  0 <= n <= cap buffer -> finished (snd (Parser.Read buffer n)).
Proof.
  intros Hn. unfold Parser.Read. rewrite Read_outcome by assumption.
  destruct (len buffer <? 12); [exact I|].
  apply bind_finished; [|intros; exact I].
  apply read_sections_finished.
  - apply Parser_parseDomainName_finished.
  - apply Parser_parseResource_finished.
Qed.

(** ** The second parser file: the name loop *)

(** More fuel does not change a run that has come to an end. *)
Lemma Part000_loop_fuel_mono (fuel : nat) :
  forall (fuel' : nat) (buffer : slice) (offset : Z) (labels : string)
         (startOff : Z),
  (fuel <= fuel')%nat ->
  finished (Part000.parseDomainName_loop fuel buffer offset labels startOff) ->
  Part000.parseDomainName_loop fuel' buffer offset labels startOff =
  Part000.parseDomainName_loop fuel buffer offset labels startOff.
Proof.
  induction fuel as [|fuel IH]; intros fuel' buffer offset labels startOff Hle Hfin;
    [contradiction|].
  destruct fuel' as [|fuel']; [lia|].
  cbn [Part000.parseDomainName_loop] in *.
  destruct (index buffer startOff) as [b| |]; cbn [bind] in *; try reflexivity.
  destruct (byte_val b =? 192).
  - destruct (index buffer (startOff + 1)) as [t| |]; cbn [bind] in *;
      try reflexivity.
    assert (finished (Part000.parseDomainName_loop fuel buffer (byte_val t) ""
                        (byte_val t))) as F
      by (destruct (Part000.parseDomainName_loop fuel buffer (byte_val t) ""
                      (byte_val t)); [exact I | exact I | exact Hfin]).
    rewrite (IH fuel' _ _ _ _ ltac:(lia) F). reflexivity.
  - destruct (subslice buffer (startOff + 1) (startOff + 1 + byte_val b));
      cbn [bind] in *; try reflexivity.
    destruct (index buffer (byte_val b)) as [c| |]; cbn [bind] in *;
      try reflexivity.
    destruct (byte_val c =? 0); [reflexivity|].
    apply IH; [lia|assumption].
Qed.

(** Every turn of the loop that is not a pointer moves the cursor forward,
    so a buffer without octet 192 is decoded (or refused by a panic) within
    [len(buffer) + 1] turns. *)
Lemma Part000_loop_finished (fuel : nat) :
  forall (buffer : slice) (offset : Z) (labels : string) (startOff : Z),
  (forall b, In b (elems buffer) -> byte_val b <> 192) ->
  (0 < fuel)%nat ->
  startOff < 0 \/ len buffer - startOff < Z.of_nat fuel ->
  finished (Part000.parseDomainName_loop fuel buffer offset labels startOff).
Proof.
  induction fuel as [|fuel IH];
    intros buffer offset labels startOff Hno Hpos Hfuel; [lia|].
  cbn [Part000.parseDomainName_loop].
  destruct (index buffer startOff) as [b| |] eqn:Hb; cbn [bind];
    [|exact I|pose proof (index_finished buffer startOff) as F;
              rewrite Hb in F; exact F].
  pose proof (index_Ret_range _ _ _ Hb) as Hrange.
  assert (In b (elems buffer)) as Hin.
  { unfold index in Hb. destruct (startOff <? 0); [discriminate|].
    destruct (nth_error (elems buffer) (Z.to_nat startOff)) eqn:E;
      [|discriminate].
    injection Hb as <-. eapply nth_error_In; eassumption. }
  destruct (Z.eqb_spec (byte_val b) 192) as [H192|_];
    [exfalso; exact (Hno b Hin H192)|].
  apply bind_finished; [apply subslice_finished|]. intros label _.
  apply bind_finished; [apply index_finished|]. intros c _.
  destruct (byte_val c =? 0); [exact I|].
  pose proof (byte_val_range b). apply IH; [assumption|lia|lia].
Qed.

(** A returned count is positive past the starting offset. *)
Lemma Part000_loop_count (fuel : nat) :
  forall (buffer : slice) (offset : Z) (labels : string) (startOff : Z)
         (name : string) (n : Z),
  Part000.parseDomainName_loop fuel buffer offset labels startOff = Ret (name, n) ->
  0 <= startOff < offset + n.
Proof.
  induction fuel as [|fuel IH]; intros buffer offset labels startOff name n E;
    cbn [Part000.parseDomainName_loop] in E; [discriminate|].
  destruct (index buffer startOff) as [b| |] eqn:Hb; cbn [bind] in E;
    try discriminate.
  apply index_Ret_range in Hb. pose proof (byte_val_range b).
  destruct (byte_val b =? 192).
  - destruct (index buffer (startOff + 1)) as [t| |]; cbn [bind] in E;
      try discriminate.
    destruct (Part000.parseDomainName_loop fuel buffer (byte_val t) ""
                (byte_val t)) as [[label m]| |]; cbn [bind] in E;
      try discriminate.
    injection E as _ <-. lia.
  - destruct (subslice buffer (startOff + 1) (startOff + 1 + byte_val b));
      cbn [bind] in E; try discriminate.
    destruct (index buffer (byte_val b)) as [c| |]; cbn [bind] in E;
      try discriminate.
    destruct (byte_val c =? 0).
    + injection E as _ <-. lia.
    + apply IH in E. lia.
Qed.

(** The self-pointer [192, 0] at offset 0 is followed again and again. *)
Lemma Part000_self_pointer_diverges (fuel : nat) :
  forall labels offset,
  Part000.parseDomainName_loop fuel (bytes [192; 0]) offset labels 0 = OutOfFuel.
Proof.
  induction fuel as [|fuel IH]; intros labels offset; [reflexivity|].
  cbn [Part000.parseDomainName_loop].
  change (index (bytes [192; 0]) 0) with (Ret (octet 192)).
  change (index (bytes [192; 0]) (0 + 1)) with (Ret (octet 0)).
  cbn [bind]. change (byte_val (octet 192) =? 192) with true. cbv iota.
  change (byte_val (octet 0)) with 0. rewrite IH. reflexivity.
Qed.




(** *** Labels that end in a pointer *)

Lemma string_append_assoc (s1 s2 s3 : string) :
  ((s1 ++ s2) ++ s3 = s1 ++ (s2 ++ s3))%string.
Proof.
  induction s1 as [|c s1 IH]; cbn [String.append];
    [reflexivity | rewrite IH; reflexivity].
Qed.

(** X14.  In the second parser file the loop walks over the labels in
    front of a pointer as long as its test [buffer[len]] finds a non-zero
    octet for each of them, follows the pointer, and returns the labels,
    each with a dot behind it, then the pointed-to name, with a count of the
    label octets and the two pointer octets. *)
Lemma Part000_labels_then_pointer (ls : list (list byte)) :
  forall (fuel : nat) (buffer : slice) (offset : Z) (acc : string)
         (pre post : list byte) (t : byte) (name : string) (m : Z),
  elems buffer = pre ++ wire_then_pointer ls t ++ post ->
  Forall (fun l => 1 <= Z.of_nat (List.length l) <= 63 /\
                   exists c, index buffer (Z.of_nat (List.length l)) = Ret c /\
                             byte_val c <> 0) ls ->
  Part000.parseDomainName fuel buffer (byte_val t) = Ret (name, m) ->
  Part000.parseDomainName_loop (List.length ls + S fuel) buffer offset acc
    (Z.of_nat (List.length pre)) =
  Ret ((acc ++ dotted ls ++ name)%string,
       Z.of_nat (List.length pre) - offset + label_octets ls + 2).
Proof.
  induction ls as [|l ls IH];
    intros fuel buffer offset acc pre post t name m E Hls Hname;
    cbn [List.length Nat.add Part000.parseDomainName_loop wire_then_pointer
         dotted label_octets] in *.
  - rewrite (index_at_split buffer pre (t :: post) (octet 192)) by exact E.
    cbn [bind]. change (byte_val (octet 192) =? 192) with true. cbv iota.
    replace (Z.of_nat (List.length pre) + 1)
      with (Z.of_nat (List.length (pre ++ [octet 192])))
      by (rewrite length_app; cbn [List.length]; lia).
    rewrite (index_at_split buffer (pre ++ [octet 192]) post t)
      by (rewrite E, <- app_assoc; reflexivity).
    cbn [bind]. unfold Part000.parseDomainName in Hname. rewrite Hname.
    cbn [bind]. do 2 f_equal. lia.
  - inversion Hls as [|? ? (Hl & c & Hc & Hnz) Hls']; subst.
    rewrite <- app_comm_cons in E.
    rewrite (index_at_split buffer pre _ _ E). cbn [bind].
    rewrite byte_val_octet by lia.
    destruct (Z.eqb_spec (Z.of_nat (List.length l)) 192); [lia|].
    destruct (subslice_at_split buffer
                (pre ++ [octet (Z.of_nat (List.length l))]) l
                ((wire_then_pointer ls t ++ post) ++ spare buffer))
      as [rest Hsub].
    { unfold backing. rewrite E. rewrite <- ?app_assoc. cbn [app].
      rewrite <- ?app_assoc. reflexivity. }
    rewrite length_app in Hsub. cbn [List.length] in Hsub.
    replace (Z.of_nat (List.length pre + 1)) with (Z.of_nat (List.length pre) + 1)
      in Hsub by lia.
    rewrite Hsub. cbn [bind]. rewrite Hc. cbn [bind].
    destruct (Z.eqb_spec (byte_val c) 0); [contradiction|].
    replace (Z.of_nat (List.length pre) + (Z.of_nat (List.length l) + 1))
      with (Z.of_nat (List.length (pre ++ octet (Z.of_nat (List.length l)) :: l)))
      by (rewrite length_app; cbn [List.length]; lia).
    rewrite (IH fuel buffer offset _ _ post t name m).
    + unfold string_of. cbn [elems]. rewrite !string_append_assoc.
      do 2 f_equal. rewrite length_app. cbn [List.length]. lia.
    + rewrite E. rewrite <- ?app_assoc. cbn [app].
      rewrite <- ?app_assoc. reflexivity.
    + assumption.
    + assumption.
Qed.

(** For instance [5,'h','e','l','l','o'] and a pointer to the name
    [3,'c','o','m'] at offset 12, in a buffer whose octet 5 is not zero and
    whose octet 3 is. *)
Example Part000_labels_then_pointer_example :
  Part000.parseDomainName 3
    (bytes [0; 0; 0; 0; 0; 1; 0; 0; 0; 0; 0; 0; 3; 99; 111; 109;
            5; 104; 101; 108; 108; 111; 192; 12]) 16 = Ret ("hello.com", 8).
Proof. by_evaluation. Qed.

(** ** The second parser file: resource records *)

(** The record that starts with a decodable name at [offset]: as in
    parser.go, except that type 2 with class 1 (NS, IN) has its RDATA
    sub-slice decoded as a name of its own. *)
Lemma Part000_parseResource_fields (fuel : nat) (buffer : slice) (offset : Z)
    (name : string) (n : Z) :
  Part000.parseDomainName fuel buffer offset = Ret (name, n) ->
  offset + n + 10 <= cap buffer ->
  Part000.parseResource fuel buffer offset =
  let cursor := offset + n + 10 in
  let rtype := big_endian (octets buffer (offset + n) 2) in
  let rclass := big_endian (octets buffer (offset + n + 2) 2) in
  let rttl := big_endian (octets buffer (offset + n + 4) 4) in
  let rdlen := big_endian (octets buffer (offset + n + 8) 2) in
  if cursor + rdlen <=? cap buffer then
    if (rtype =? 2) && (rclass =? 1) then
      '(domainName, _) <-
         Part000.parseDomainName fuel
           (mkSlice (octets buffer cursor rdlen)
                    (skipn (Z.to_nat (cursor + rdlen)) (backing buffer))) 0;;
      Ret (mkResource name rtype rclass rttl rdlen (bytes_of domainName),
           cursor + rdlen)
    else
      Ret (mkResource name rtype rclass rttl rdlen (octets buffer cursor rdlen),
           cursor + rdlen)
  else Panic SliceBoundsOutOfRange.
Proof.
  intros Hname Hcap.
  pose proof (Part000_loop_count _ _ _ _ _ _ _ Hname) as Hoff.
  unfold Part000.parseResource. rewrite Hname. cbn [bind]. cbv zeta.
  rewrite (read16_in_range buffer (offset + n)) by lia. cbn [bind].
  rewrite (read16_in_range buffer (offset + n + 2)) by lia. cbn [bind].
  rewrite (read32_in_range buffer (offset + n + 2 + 2)) by lia. cbn [bind].
  rewrite (read16_in_range buffer (offset + n + 2 + 2 + 4)) by lia. cbn [bind].
  replace (offset + n + 2 + 2 + 4 + 2) with (offset + n + 10) by lia.
  replace (offset + n + 2 + 2 + 4) with (offset + n + 8) by lia.
  replace (offset + n + 2 + 2) with (offset + n + 4) by lia.
  set (rdlen := big_endian (octets buffer (offset + n + 8) 2)).
  assert (0 <= rdlen < 65536) as Hrd
    by (apply big_endian_2_range; rewrite octets_length by lia; reflexivity).
  destruct (Z.leb_spec (offset + n + 10 + rdlen) (cap buffer)).
  - rewrite subslice_in_range by lia.
    replace (offset + n + 10 + rdlen - (offset + n + 10)) with rdlen by lia.
    destruct ((big_endian (octets buffer (offset + n) 2) =? 2)
              && (big_endian (octets buffer (offset + n + 2) 2) =? 1)).
    + cbn [bind].
      destruct (Part000.parseDomainName fuel _ 0) as [[domainName m]| |];
        reflexivity.
    + reflexivity.
  - rewrite subslice_out_of_range by lia.
    destruct ((big_endian (octets buffer (offset + n) 2) =? 2)
              && (big_endian (octets buffer (offset + n + 2) 2) =? 1));
      reflexivity.
Qed.

(** ** How far the section decoders of parser.go move the cursor *)

Lemma read16_Ret_range (buffer : slice) (off v : Z) :
  (s <- subslice buffer off (off + 2);; BigEndian.Uint16 s) = Ret v ->
  0 <= off /\ off + 2 <= cap buffer.
Proof.
  intros E. destruct (Z.lt_ge_cases off 0);
    [rewrite read16_out_of_range in E by lia; discriminate|].
  destruct (Z.lt_ge_cases (cap buffer) (off + 2));
    [rewrite read16_out_of_range in E by lia; discriminate|lia].
Qed.

Lemma read32_Ret_range (buffer : slice) (off v : Z) :
  (s <- subslice buffer off (off + 4);; BigEndian.Uint32 s) = Ret v ->
  0 <= off /\ off + 4 <= cap buffer.
Proof.
  intros E. destruct (Z.lt_ge_cases off 0);
    [rewrite read32_out_of_range in E by lia; discriminate|].
  destruct (Z.lt_ge_cases (cap buffer) (off + 4));
    [rewrite read32_out_of_range in E by lia; discriminate|lia].
Qed.

(** A question takes at least 5 octets of the buffer. *)
Lemma Parser_parseQuestion_advance (buffer : slice) (offset : Z)
    (q : Question) (offset' : Z) :
  Parser.parseQuestion buffer offset = Ret (q, offset') ->
  offset + 5 <= offset' <= cap buffer.
Proof.
  unfold Parser.parseQuestion, parseQuestion. intros E.
  destruct (Parser.parseDomainName buffer offset) as [[qname n]| |] eqn:Hn;
    cbn [bind] in E; try discriminate.
  apply Parser_parseDomainName_bound in Hn.
  destruct (s <- subslice buffer (offset + n) (offset + n + 2);;
            BigEndian.Uint16 s) as [qtype| |] eqn:H1;
    cbn [bind] in E; try discriminate.
  destruct (s <- subslice buffer (offset + n + 2) (offset + n + 2 + 2);;
            BigEndian.Uint16 s) as [qclass| |] eqn:H2;
    cbn [bind] in E; try discriminate.
  apply read16_Ret_range in H1, H2. injection E as _ <-. lia.
Qed.

(** A resource record takes at least 11 octets of the buffer. *)
Lemma Parser_parseResource_advance (buffer : slice) (offset : Z)
    (r : Resource) (offset' : Z) :
  Parser.parseResource buffer offset = Ret (r, offset') ->
  offset + 11 <= offset' <= cap buffer.
Proof.
  intros E.
  destruct (Parser.parseDomainName buffer offset) as [[name n]| |] eqn:Hn;
    [|unfold Parser.parseResource in E; rewrite Hn in E; discriminate ..].
  pose proof (Parser_parseDomainName_bound _ _ _ _ Hn) as Hb.
  destruct (Z.lt_ge_cases (cap buffer) (offset + n + 10)) as [Hlt|Hge].
  - exfalso. unfold Parser.parseResource in E. rewrite Hn in E.
    cbn [bind] in E. cbv zeta in E.
    destruct (s <- subslice buffer (offset + n) (offset + n + 2);;
              BigEndian.Uint16 s) as [rtype| |] eqn:H1;
      cbn [bind] in E; try discriminate.
    destruct (s <- subslice buffer (offset + n + 2) (offset + n + 2 + 2);;
              BigEndian.Uint16 s) as [rclass| |] eqn:H2;
      cbn [bind] in E; try discriminate.
    destruct (s <- subslice buffer (offset + n + 2 + 2) (offset + n + 2 + 2 + 4);;
              BigEndian.Uint32 s) as [rttl| |] eqn:H3;
      cbn [bind] in E; try discriminate.
    destruct (s <- subslice buffer (offset + n + 2 + 2 + 4)
                     (offset + n + 2 + 2 + 4 + 2);;
              BigEndian.Uint16 s) as [rdlen| |] eqn:H4;
      cbn [bind] in E; try discriminate.
    apply read16_Ret_range in H4. lia.
  - rewrite (Parser_parseResource_fields _ _ _ _ Hn) in E by lia.
    cbv zeta in E.
    assert (0 <= big_endian (octets buffer (offset + n + 8) 2) < 65536)
      by (apply big_endian_2_range; rewrite octets_length by lia; reflexivity).
    destruct (Z.leb_spec
                (offset + n + 10 + big_endian (octets buffer (offset + n + 8) 2))
                (cap buffer)); [|discriminate].
    injection E as _ <-. lia.
Qed.

Lemma parse_section_advance {A : Type} (parse : slice -> Z -> outcome (A * Z))
    (k : Z) (count : nat) :
  (forall buffer index x index', parse buffer index = Ret (x, index') ->
     index + k <= index' <= cap buffer) ->
  forall (buffer : slice) (index : Z) (xs ys : list A) (index' : Z),
  index <= cap buffer ->
  parse_section parse count buffer index xs = Ret (ys, index') ->
  index + k * Z.of_nat count <= index' <= cap buffer.
Proof.
  intros Hparse. induction count as [|count IH];
    intros buffer index xs ys index' Hcap E; cbn [parse_section] in E.
  - injection E as _ <-. lia.
  - destruct (parse buffer index) as [[x newIndex]| |] eqn:Hp; cbn [bind] in E;
      try discriminate.
    apply Hparse in Hp. apply IH in E; lia.
Qed.

(** ** The properties of the specification *)

Lemma Uint16_finished (s : slice) : finished (BigEndian.Uint16 s).
Proof.
  unfold BigEndian.Uint16.
  repeat (apply bind_finished; [apply index_finished|intros ? _]). exact I.
Qed.

Lemma parseHeader_finished (buffer : slice) : finished (parseHeader buffer).
Proof.
  unfold parseHeader.
  repeat (apply bind_finished;
          [apply bind_finished;
           [apply subslice_finished|intros ? _; apply Uint16_finished]
          |intros ? _]).
  exact I.
Qed.

Lemma octets_pair_elems (buffer : slice) (off : Z) :
  0 <= off -> off + 2 <= len buffer ->
  exists hi lo,
    nth_error (elems buffer) (Z.to_nat off) = Some hi /\
    nth_error (elems buffer) (Z.to_nat off + 1) = Some lo /\
    big_endian (octets buffer off 2) = 256 * byte_val hi + byte_val lo.
Proof.
  intros H1 H2. pose proof (len_le_cap buffer).
  destruct (octets_2 buffer off H1 ltac:(lia)) as (hi & lo & E).
  exists hi, lo. rewrite E, big_endian_2.
  assert (forall i, (i < 2)%nat ->
            nth_error (octets buffer off 2) i =
            nth_error (elems buffer) (Z.to_nat off + i)) as Hnth.
  { intros i Hi. unfold octets, backing.
    rewrite nth_error_firstn. change (Z.to_nat 2) with 2%nat.
    destruct (Nat.ltb_spec i 2); [|lia].
    rewrite nth_error_skipn. apply nth_error_app1. unfold len in H2. lia. }
  repeat split.
  - rewrite <- (Nat.add_0_r (Z.to_nat off)), <- Hnth, E by lia. reflexivity.
  - rewrite <- Hnth, E by lia. reflexivity.
Qed.

(** C9.  For every buffer of at least 12 bytes the decoded header is made
    of the six unsigned 16-bit big-endian integers at byte offsets 0, 2, 4,
    6, 8 and 10, in the order ID, flags, QdCount, AnCount, NsCount, ArCount:
    [parseHeader] returns it, on the buffer and on [buffer[:12]] as [Read]
    calls it, it is the header of every payload [Read] returns, and each
    field is [256 * hi + lo] for the two octets at its offset. *)
Theorem parseHeader_big_endian_fields (buffer : slice) :
  12 <= len buffer ->
  parseHeader buffer = Ret (header_at_0 buffer) /\
  (hb <- subslice buffer 0 12;; parseHeader hb) = Ret (header_at_0 buffer) /\
  (forall n p, 0 <= n <= len buffer ->
     snd (Parser.Read buffer n) = Ret (p, None) ->
     PHeader p = header_at_0 buffer) /\
  (forall off, In off [0; 2; 4; 6; 8; 10] ->
     exists hi lo,
       nth_error (elems buffer) (Z.to_nat off) = Some hi /\
       nth_error (elems buffer) (Z.to_nat off + 1) = Some lo /\
       big_endian (octets buffer off 2) = 256 * byte_val hi + byte_val lo).
Proof.
  intros H. pose proof (len_le_cap buffer). repeat split.
  - apply parseHeader_in_range. lia.
  - apply parseHeader_of_prefix. assumption.
  - intros n p Hn E. unfold Parser.Read in E.
    rewrite Read_outcome in E by lia.
    destruct (Z.ltb_spec (len buffer) 12); [lia|].
    destruct (read_sections _ _ (header_at_0 buffer) buffer) as [p'| |] eqn:Hs;
      cbn [bind] in E; try discriminate.
    injection E as <-. apply read_sections_counts in Hs. apply Hs.
  - intros off Hoff. apply octets_pair_elems; cbn [In] in Hoff; lia.
Qed.

Lemma parseHeader_big_endian_fields_witness :
  12 <= len header_no_records /\
  parseHeader header_no_records = Ret (mkHeader 7 256 0 0 0 0).
Proof.
  split; [by_evaluation|].
  apply (parseHeader_big_endian_fields header_no_records). by_evaluation.
Defined.

(** C10.  The payload and the error that [Read] returns do not depend on
    the valid-length argument: for a buffer of at least 12 bytes and two
    lengths within it, [Read] ends the same way in both parser files
    (whatever the fuel of the second), and its output differs only in the
    byte dump of the first [n] bytes. *)
Theorem Read_independent_of_valid_length (buffer : slice) (n1 n2 : Z)
    (fuel : nat) :
  12 <= len buffer -> 0 <= n1 <= len buffer -> 0 <= n2 <= len buffer ->
  snd (Parser.Read buffer n1) = snd (Parser.Read buffer n2) /\
  snd (Part000.Read fuel buffer n1) = snd (Part000.Read fuel buffer n2) /\
  (exists rest,
     fst (Parser.Read buffer n1) =
       dump_from 0 (firstn (Z.to_nat n1) (elems buffer)) ++ rest /\
     fst (Parser.Read buffer n2) =
       dump_from 0 (firstn (Z.to_nat n2) (elems buffer)) ++ rest) /\
  (exists rest,
     fst (Part000.Read fuel buffer n1) =
       dump_from 0 (firstn (Z.to_nat n1) (elems buffer)) ++ rest /\
     fst (Part000.Read fuel buffer n2) =
       dump_from 0 (firstn (Z.to_nat n2) (elems buffer)) ++ rest).
Proof.
  intros H12 H1 H2. pose proof (len_le_cap buffer).
  unfold Parser.Read, Part000.Read. repeat split.
  - rewrite !Read_outcome by lia. reflexivity.
  - rewrite !Read_outcome by lia. reflexivity.
  - destruct (Read_output Parser.parseDomainName Parser.parseResource buffer)
      as [rest Hrest].
    exists rest. split; apply Hrest; assumption.
  - destruct (Read_output (Part000.parseDomainName fuel)
                (Part000.parseResource fuel) buffer) as [rest Hrest].
    exists rest. split; apply Hrest; assumption.
Qed.

Lemma Read_independent_of_valid_length_witness :
  (12 <= len query_root /\ 0 <= 12 <= len query_root
   /\ 0 <= 17 <= len query_root) /\
  snd (Parser.Read query_root 12) = snd (Parser.Read query_root 17).
Proof.
  split; [by_evaluation|].
  apply (Read_independent_of_valid_length query_root 12 17 0); by_evaluation.
Defined.

(** C6, as the code has it.  [Read] fails with an error exactly when the
    buffer itself is shorter than 12 bytes ([len(buffer) < 12]); the error
    is then the short-header one and the payload is empty.  The valid
    length [n] is not what is checked. *)
Theorem Read_short_header_iff (buffer : slice) (n : Z) :
  0 <= n <= len buffer ->
  ((exists p e, snd (Parser.Read buffer n) = Ret (p, Some e))
   <-> len buffer < 12) /\
  (len buffer < 12 ->
   snd (Parser.Read buffer n) = Ret (zero_Payload, Some short_header_error)).
Proof.
  intros Hn. pose proof (len_le_cap buffer).
  unfold Parser.Read. rewrite Read_outcome by lia.
  destruct (Z.ltb_spec (len buffer) 12) as [Hlt|Hge].
  - split; [|reflexivity]. split; [intros _; assumption|].
    intros _. eauto.
  - split; [|lia]. split; [|lia].
    intros (p & e & E).
    destruct (read_sections _ _ (header_at_0 buffer) buffer); cbn [bind] in E;
      discriminate.
Qed.

Lemma Read_short_header_iff_witness :
  0 <= 1 <= len root_name /\
  snd (Parser.Read root_name 1) = Ret (zero_Payload, Some short_header_error).
Proof.
  split; [by_evaluation|].
  apply (Read_short_header_iff root_name 1); by_evaluation.
Defined.

(** C6, as the specification has it, fails: with 5 valid bytes in a buffer
    of 12, [Read] reports no error and returns a payload. *)
Lemma Read_short_valid_length_no_error :
  5 < 12 /\
  snd (Parser.Read header_no_records 5) =
  Ret (mkPayload (mkHeader 7 256 0 0 0 0) [] [] [] [], None).
Proof. by_evaluation. Qed.

(** What [Read] of parser.go comes to, for a sliceable valid length. *)
Lemma Parser_Read_cases (buffer : slice) (n : Z) :
  0 <= n <= len buffer ->
  (exists k, snd (Parser.Read buffer n) = Panic k) \/
  (len buffer < 12 /\
   snd (Parser.Read buffer n) = Ret (zero_Payload, Some short_header_error)) \/
  (12 <= len buffer /\
   exists p, snd (Parser.Read buffer n) = Ret (p, None) /\
     read_sections Parser.parseDomainName Parser.parseResource
       (header_at_0 buffer) buffer = Ret p).
Proof.
  intros Hn. pose proof (len_le_cap buffer).
  pose proof (Parser_Read_finished buffer n ltac:(lia)) as F.
  unfold Parser.Read in *. rewrite Read_outcome in * by lia.
  destruct (Z.ltb_spec (len buffer) 12) as [Hlt|Hge]; [right; left; auto|].
  destruct (read_sections _ _ (header_at_0 buffer) buffer) as [p|k|];
    cbn [bind] in *.
  - right; right. eauto.
  - left. eauto.
  - contradiction.
Qed.

(** The section loops of parser.go need at least 5 octets per question
    and 11 per resource record behind the header. *)
Lemma Parser_read_sections_room (h : Header) (buffer : slice) (p : Payload) :
  12 <= cap buffer ->
  read_sections Parser.parseDomainName Parser.parseResource h buffer = Ret p ->
  12 + 5 * Z.of_nat (Z.to_nat (QdCount h))
     + 11 * (Z.of_nat (Z.to_nat (AnCount h)) + Z.of_nat (Z.to_nat (NsCount h))
             + Z.of_nat (Z.to_nat (ArCount h))) <= cap buffer.
Proof.
  intros Hcap E. unfold read_sections in E.
  destruct (parse_section _ (Z.to_nat (QdCount h)) buffer 12 [])
    as [[questions i1]| |] eqn:E1; cbn [bind] in E; try discriminate.
  destruct (parse_section _ (Z.to_nat (AnCount h)) buffer i1 [])
    as [[answers i2]| |] eqn:E2; cbn [bind] in E; try discriminate.
  destruct (parse_section _ (Z.to_nat (NsCount h)) buffer i2 [])
    as [[authorities i3]| |] eqn:E3; cbn [bind] in E; try discriminate.
  destruct (parse_section _ (Z.to_nat (ArCount h)) buffer i3 [])
    as [[additionals i4]| |] eqn:E4; cbn [bind] in E; try discriminate.
  apply (parse_section_advance _ 5) in E1;
    [|exact Parser_parseQuestion_advance|lia].
  apply (parse_section_advance _ 11) in E2;
    [|exact Parser_parseResource_advance|lia].
  apply (parse_section_advance _ 11) in E3;
    [|exact Parser_parseResource_advance|lia].
  apply (parse_section_advance _ 11) in E4;
    [|exact Parser_parseResource_advance|lia].
  lia.
Qed.

(** C5, as the code has it.  [Read] has no section-overrun error and its
    section loops do not look at [n].  For every valid length within the
    buffer it ends in one of three ways, none of them a partial message: a
    run-time panic (nothing is returned), the short-header error with the
    empty payload, or no error and a payload that holds the header and
    exactly QdCount questions and AnCount, NsCount and ArCount records.
    When the records the header counts cannot fit in the buffer (5 octets
    at least per question, 11 per record), it is the panic. *)
Theorem Read_all_or_nothing (buffer : slice) (n : Z) :
  0 <= n <= len buffer ->
  let h := header_at_0 buffer in
  ((exists k, snd (Parser.Read buffer n) = Panic k) \/
   (len buffer < 12 /\
    snd (Parser.Read buffer n) = Ret (zero_Payload, Some short_header_error)) \/
   (exists p, snd (Parser.Read buffer n) = Ret (p, None) /\
      PHeader p = h /\
      Z.of_nat (List.length (Questions p)) = QdCount h /\
      Z.of_nat (List.length (Answers p)) = AnCount h /\
      Z.of_nat (List.length (Authorities p)) = NsCount h /\
      Z.of_nat (List.length (Additionals p)) = ArCount h)) /\
  (12 <= len buffer ->
   cap buffer < 12 + 5 * QdCount h + 11 * (AnCount h + NsCount h + ArCount h) ->
   exists k, snd (Parser.Read buffer n) = Panic k).
Proof.
  intros Hn h. pose proof (len_le_cap buffer).
  destruct (Parser_Read_cases buffer n Hn) as [Hp|[Hs|(H12 & p & Hr & Hsec)]].
  - split; [left; assumption|intros; assumption].
  - split; [right; left; assumption|lia].
  - pose proof (header_counts_range buffer ltac:(lia)) as Hc. cbv zeta in Hc.
    fold h in Hc. split.
    + right; right. exists p. split; [assumption|].
      apply read_sections_counts in Hsec. fold h in Hsec.
      destruct Hsec as (-> & -> & -> & -> & ->). repeat split; lia.
    + intros _ Hroom. exfalso.
      apply Parser_read_sections_room in Hsec; [|lia]. fold h in Hsec. lia.
Qed.

Lemma Read_all_or_nothing_witness :
  0 <= 12 <= len header_one_question /\
  exists k, snd (Parser.Read header_one_question 12) = Panic k.
Proof.
  split; [by_evaluation|].
  apply (Read_all_or_nothing header_one_question 12); by_evaluation.
Defined.

(** C5, as the specification has it, fails: with 12 valid bytes, the
    question is decoded from the bytes at and past position 12 and [Read]
    returns it without any error. *)
Lemma Read_past_valid_length_no_overrun :
  snd (Parser.Read query_root 12) =
  Ret (mkPayload (mkHeader 1 0 1 0 0 0) [mkQuestion "" 1 1] [] [] [], None).
Proof. by_evaluation. Qed.

(** C1, as the code has it.  For every buffer and valid length within it,
    [Read] of parser.go and the decoders it calls come to an end, but a
    read outside the buffer surfaces as a Go run-time panic (index or slice
    bounds out of range), not as a typed error: decoding a name at or past
    the end of the buffer panics, and [Read] returns the short-header error
    (its only error) when the buffer has fewer than 12 bytes and otherwise
    returns a payload or panics. *)
Theorem Read_returns_or_panics (buffer : slice) (n : Z) :
  0 <= n <= len buffer ->
  (forall offset, finished (Parser.parseDomainName buffer offset)) /\
  (forall offset, finished (Parser.parseQuestion buffer offset)) /\
  (forall offset, finished (Parser.parseResource buffer offset)) /\
  finished (parseHeader buffer) /\
  (forall offset, len buffer <= offset ->
     Parser.parseDomainName buffer offset = Panic IndexOutOfRange) /\
  ((len buffer < 12 /\
    snd (Parser.Read buffer n) = Ret (zero_Payload, Some short_header_error)) \/
   (12 <= len buffer /\
    ((exists p, snd (Parser.Read buffer n) = Ret (p, None)) \/
     (exists k, snd (Parser.Read buffer n) = Panic k)))).
Proof.
  intros Hn. repeat split.
  - intros offset. apply Parser_parseDomainName_finished.
  - intros offset. apply parseQuestion_finished.
    intros b o. apply Parser_parseDomainName_finished.
  - intros offset. apply Parser_parseResource_finished.
  - apply parseHeader_finished.
  - intros offset Hoff. unfold Parser.parseDomainName.
    cbn [Parser.parseDomainName_loop].
    rewrite index_out_of_range by lia. reflexivity.
  - destruct (Parser_Read_cases buffer n Hn) as [Hp|[Hs|(H12 & p & Hr & _)]].
    + destruct (Z.lt_ge_cases (len buffer) 12) as [Hlt|Hge]; [|eauto].
      pose proof (len_le_cap buffer). destruct Hp as [k Hk].
      unfold Parser.Read in Hk. rewrite Read_outcome in Hk by lia.
      destruct (Z.ltb_spec (len buffer) 12); [discriminate|lia].
    + left. assumption.
    + right. eauto.
Qed.

Lemma Read_returns_or_panics_witness :
  0 <= 17 <= len query_root /\
  finished (Parser.parseQuestion query_root 12).
Proof.
  split; [by_evaluation|].
  apply (Read_returns_or_panics query_root 17). by_evaluation.
Defined.

(** C1, as the specification has it, fails: a 12-byte datagram whose header
    counts one question makes [Read] panic on the read at offset 12. *)
Lemma Read_panics_on_missing_question :
  12 <= len header_one_question /\
  snd (Parser.Read header_one_question 12) = Panic IndexOutOfRange.
Proof. by_evaluation. Qed.

(** C8, as the code has it.  Neither parser file limits a name to 255
    octets or has a name-too-long error.  In parser.go the only bound is
    the buffer: a returned name is shorter than the count of consumed
    bytes, and the consumed bytes lie within the buffer behind the
    offset. *)
Theorem Parser_name_bounded_by_buffer (buffer : slice) (offset : Z)
    (name : string) (n : Z) :
  Parser.parseDomainName buffer offset = Ret (name, n) ->
  Z.of_nat (String.length name) < n /\ 0 <= offset /\ offset + n <= len buffer.
Proof.
  intros E. apply Parser_parseDomainName_bound in E. lia.
Qed.

Lemma Parser_name_bounded_by_buffer_witness :
  Parser.parseDomainName www_com 0 = Ret ("www.com", 9) /\
  Z.of_nat (String.length "www.com") < 9 /\ 0 <= 0 /\ 0 + 9 <= len www_com.
Proof.
  split; [by_evaluation|].
  apply (Parser_name_bounded_by_buffer www_com 0 "www.com" 9). by_evaluation.
Defined.

(** C8, as the specification has it, fails: both parser files return names
    of more than 255 octets (319 and 301 here). *)
Lemma name_longer_than_255_returned :
  (r <- Parser.parseDomainName five_long_labels 0;;
   Ret (String.length (fst r), snd r)) = Ret (319%nat, 321) /\
  (r <- Part000.parseDomainName 2 two_long_labels 0;;
   Ret (String.length (fst r), snd r)) = Ret (301%nat, 303).
Proof. by_evaluation. Qed.

(** C3, as the code has it.  The second parser file has no loop
    protection: no compression-loop error and no cap on pointer hops.  What
    ends a call is its own loop, which moves the cursor forward on every
    turn that is not a pointer: on a buffer that holds no octet 192,
    [parseDomainName] comes to an end (a result or a panic) within
    [len(buffer) + 1] turns, whatever the offset, and more fuel gives the
    same outcome. *)
Theorem Part000_terminates_without_pointer (buffer : slice) (offset : Z)
    (fuel : nat) :
  (forall b, In b (elems buffer) -> byte_val b <> 192) ->
  (List.length (elems buffer) < fuel)%nat ->
  finished (Part000.parseDomainName fuel buffer offset) /\
  (forall fuel', (fuel <= fuel')%nat ->
     Part000.parseDomainName fuel' buffer offset =
     Part000.parseDomainName fuel buffer offset).
Proof.
  intros Hno Hfuel.
  assert (finished (Part000.parseDomainName fuel buffer offset)) as F.
  { unfold Part000.parseDomainName. apply Part000_loop_finished;
      [assumption|lia|unfold len; lia]. }
  split; [exact F|].
  intros fuel' Hle. unfold Part000.parseDomainName in *.
  apply Part000_loop_fuel_mono; assumption.
Qed.

Lemma Part000_terminates_without_pointer_witness :
  ((forall b, In b (elems plain_octets) -> byte_val b <> 192) /\
   (List.length (elems plain_octets) < 10)%nat) /\
  finished (Part000.parseDomainName 10 plain_octets 0).
Proof.
  assert (forall b, In b (elems plain_octets) -> byte_val b <> 192) as Hno.
  { intros b Hb. cbn in Hb.
    repeat (destruct Hb as [<-|Hb]; [vm_compute; discriminate|]).
    contradiction. }
  assert (List.length (elems plain_octets) < 10)%nat as Hlen
    by (vm_compute; repeat constructor).
  split; [split; assumption|].
  apply (Part000_terminates_without_pointer plain_octets 0 10 Hno Hlen).
Defined.

(** C3, as the specification has it, fails: the pointer [192, 0] at offset
    0 points at itself; it is not rejected, and no amount of fuel brings
    the call to an end. *)
Lemma Part000_self_pointer_never_ends :
  ~ (exists fuel, finished (Part000.parseDomainName fuel (bytes [192; 0]) 0)).
Proof.
  intros [fuel F]. unfold Part000.parseDomainName in F.
  rewrite Part000_self_pointer_diverges in F. exact F.
Qed.


(** More or less fuel: a call that has come to an end has one outcome. *)
Lemma Part000_outcome_unique (fuel fuel' : nat) (buffer : slice) (offset : Z) :
  finished (Part000.parseDomainName fuel buffer offset) ->
  finished (Part000.parseDomainName fuel' buffer offset) ->
  Part000.parseDomainName fuel' buffer offset =
  Part000.parseDomainName fuel buffer offset.
Proof.
  intros F F'. unfold Part000.parseDomainName in *.
  destruct (Nat.le_ge_cases fuel fuel').
  - apply Part000_loop_fuel_mono; assumption.
  - symmetry. apply Part000_loop_fuel_mono; assumption.
Qed.

(** C4.  Uncompressed names: parser.go decodes the specification's two
    examples as the specification says ([Parser_parseDomainName_labels]
    above has the general statement), the second parser file does not.  On
    [3,'w','w','w',3,'c','o','m',0] it tests [buffer[len]] instead of the
    next length octet, walks over the zero octet and panics behind the
    buffer; on the root name [0] it returns the empty name with a count of
    2.  No fuel makes it return what the specification says. *)
Theorem Part000_uncompressed_names_misdecoded :
  Parser.parseDomainName www_com 0 = Ret ("www.com", 9) /\
  Parser.parseDomainName root_name 0 = Ret ("", 1) /\
  Part000.parseDomainName 4 www_com 0 = Panic IndexOutOfRange /\
  Part000.parseDomainName 1 root_name 0 = Ret ("", 2) /\
  ~ (exists fuel, Part000.parseDomainName fuel www_com 0 = Ret ("www.com", 9)) /\
  ~ (exists fuel, Part000.parseDomainName fuel root_name 0 = Ret ("", 1)).
Proof.
  split; [by_evaluation|]. split; [by_evaluation|].
  split; [by_evaluation|]. split; [by_evaluation|]. split.
  - intros [fuel E].
    assert (Part000.parseDomainName fuel www_com 0 =
            Part000.parseDomainName 4 www_com 0) as U
      by (apply Part000_outcome_unique; [by_evaluation|rewrite E; exact I]).
    rewrite E in U. vm_compute in U. discriminate.
  - intros [fuel E].
    assert (Part000.parseDomainName fuel root_name 0 =
            Part000.parseDomainName 1 root_name 0) as U
      by (apply Part000_outcome_unique; [by_evaluation|rewrite E; exact I]).
    rewrite E in U. vm_compute in U. discriminate.
Qed.

(** C7, as the specification has it, fails: a record whose RDLENGTH
    reaches past the buffer makes [parseResource] panic, and the second
    parser file returns for a type 2, class 1 record with the RDATA octets
    [1, 0] the re-decoded octet [0]. *)
Lemma parseResource_rdata_not_opaque :
  Parser.parseResource a_record_truncated 0 = Panic SliceBoundsOutOfRange /\
  octets ns_record 12 2 = [octet 1; octet 0] /\
  Part000.parseResource 1 ns_record 0 =
  Ret (mkResource "" 2 1 60 2 [octet 0], 14).
Proof. by_evaluation. Qed.

(** ** Further properties of the code *)

(** *** Big-endian fields *)

Lemma read16_cases (buffer : slice) (off : Z) :
  0 <= off ->
  (s <- subslice buffer off (off + 2);; BigEndian.Uint16 s) =
  if off + 2 <=? cap buffer then Ret (big_endian (octets buffer off 2))
  else Panic SliceBoundsOutOfRange.
Proof.
  intros H. destruct (Z.leb_spec (off + 2) (cap buffer)).
  - apply read16_in_range; assumption.
  - apply read16_out_of_range. lia.
Qed.

Lemma read16_between_cases (buffer : slice) (lo hi : Z) :
  0 <= lo -> hi = lo + 2 ->
  (s <- subslice buffer lo hi;; BigEndian.Uint16 s) =
  if hi <=? cap buffer then Ret (big_endian (octets buffer lo 2))
  else Panic SliceBoundsOutOfRange.
Proof. intros H ->. apply read16_cases; assumption. Qed.

Lemma octet_byte_val (b : byte) : octet (byte_val b) = b.
Proof.
  unfold octet, byte_val. rewrite N2Z.id, Byte.of_to_N. reflexivity.
Qed.

Lemma big_endian_encode16 (v : Z) :
  0 <= v < 65536 -> big_endian (encode16 v) = v.
Proof.
  intros H. unfold encode16. rewrite big_endian_2.
  assert (0 <= v / 256 < 256)
    by (split; [apply Z.div_pos; lia | apply Z.div_lt_upper_bound; lia]).
  pose proof (Z.mod_pos_bound v 256 ltac:(lia)).
  rewrite !byte_val_octet by lia.
  pose proof (Z.div_mod v 256 ltac:(lia)). lia.
Qed.

Lemma big_endian_encode32 (v : Z) :
  0 <= v < 4294967296 -> big_endian (encode32 v) = v.
Proof.
  intros H. unfold encode32. rewrite big_endian_4.
  assert (0 <= v / 16777216 < 256)
    by (split; [apply Z.div_pos; lia | apply Z.div_lt_upper_bound; lia]).
  pose proof (Z.mod_pos_bound (v / 65536) 256 ltac:(lia)).
  pose proof (Z.mod_pos_bound (v / 256) 256 ltac:(lia)).
  pose proof (Z.mod_pos_bound v 256 ltac:(lia)).
  rewrite !byte_val_octet by lia.
  pose proof (Z.div_mod v 256 ltac:(lia)).
  pose proof (Z.div_mod (v / 256) 256 ltac:(lia)).
  pose proof (Z.div_mod (v / 65536) 256 ltac:(lia)).
  replace (v / 256 / 256) with (v / 65536) in *
    by (rewrite Z.div_div by lia; reflexivity).
  replace (v / 65536 / 256) with (v / 16777216) in *
    by (rewrite Z.div_div by lia; reflexivity).
  lia.
Qed.

(** *** parseHeader *)

(** X1.  [parseHeader] returns exactly when the capacity of its slice is at
    least 12, and panics with slice bounds out of range otherwise: it never
    consults the length, and reads the backing array. *)
Theorem parseHeader_needs_capacity (buffer : slice) :
  parseHeader buffer =
  if 12 <=? cap buffer then Ret (header_at_0 buffer)
  else Panic SliceBoundsOutOfRange.
Proof.
  destruct (Z.leb_spec 12 (cap buffer)) as [H|H].
  - apply parseHeader_in_range. assumption.
  - unfold parseHeader. rewrite !read16_between_cases by lia.
    destruct (Z.leb_spec 2 (cap buffer)); cbn [bind]; [|reflexivity].
    destruct (Z.leb_spec 4 (cap buffer)); cbn [bind]; [|reflexivity].
    destruct (Z.leb_spec 6 (cap buffer)); cbn [bind]; [|reflexivity].
    destruct (Z.leb_spec 8 (cap buffer)); cbn [bind]; [|reflexivity].
    destruct (Z.leb_spec 10 (cap buffer)); cbn [bind]; [|reflexivity].
    destruct (Z.leb_spec 12 (cap buffer)); cbn [bind]; [lia|reflexivity].
Qed.

Lemma header_at_0_encode (h : Header) (rest sp : list byte) :
  0 <= ID h < 65536 -> 0 <= Flags h < 65536 -> 0 <= QdCount h < 65536 ->
  0 <= AnCount h < 65536 -> 0 <= NsCount h < 65536 -> 0 <= ArCount h < 65536 ->
  header_at_0 (mkSlice (encode_header h ++ rest) sp) = h.
Proof.
  intros. destruct h as [id flags qd an ns ar]. cbn [ID Flags QdCount AnCount
    NsCount ArCount] in *.
  unfold header_at_0, octets, backing, encode_header.
  cbn [elems spare ID Flags QdCount AnCount NsCount ArCount].
  change (encode16 id ++ encode16 flags ++ encode16 qd ++ encode16 an
          ++ encode16 ns ++ encode16 ar)
    with (octet (id / 256) :: octet (id mod 256)
          :: octet (flags / 256) :: octet (flags mod 256)
          :: octet (qd / 256) :: octet (qd mod 256)
          :: octet (an / 256) :: octet (an mod 256)
          :: octet (ns / 256) :: octet (ns mod 256)
          :: octet (ar / 256) :: octet (ar mod 256) :: []).
  cbn [app].
  change (Z.to_nat 0) with 0%nat. change (Z.to_nat 2) with 2%nat.
  change (Z.to_nat 4) with 4%nat. change (Z.to_nat 6) with 6%nat.
  change (Z.to_nat 8) with 8%nat. change (Z.to_nat 10) with 10%nat.
  cbn [skipn firstn].
  change [octet (id / 256); octet (id mod 256)] with (encode16 id).
  change [octet (flags / 256); octet (flags mod 256)] with (encode16 flags).
  change [octet (qd / 256); octet (qd mod 256)] with (encode16 qd).
  change [octet (an / 256); octet (an mod 256)] with (encode16 an).
  change [octet (ns / 256); octet (ns mod 256)] with (encode16 ns).
  change [octet (ar / 256); octet (ar mod 256)] with (encode16 ar).
  rewrite !big_endian_encode16 by assumption. reflexivity.
Qed.

Lemma encode_header_length (h : Header) : List.length (encode_header h) = 12%nat.
Proof. reflexivity. Qed.

(** X2.  Header round trip: [parseHeader] gives back every header of six
    16-bit values from its twelve octets in network byte order, whatever
    follows them in the buffer. *)
Theorem parseHeader_round_trip (h : Header) (rest sp : list byte) :
  0 <= ID h < 65536 -> 0 <= Flags h < 65536 -> 0 <= QdCount h < 65536 ->
  0 <= AnCount h < 65536 -> 0 <= NsCount h < 65536 -> 0 <= ArCount h < 65536 ->
  parseHeader (mkSlice (encode_header h ++ rest) sp) = Ret h.
Proof.
  intros. rewrite parseHeader_in_range.
  - rewrite header_at_0_encode by assumption. reflexivity.
  - unfold cap. cbn [elems spare]. rewrite !length_app, encode_header_length. lia.
Qed.

Lemma parseHeader_round_trip_witness :
  (0 <= 4660 < 65536 /\ 0 <= 33152 < 65536 /\ 0 <= 1 < 65536 /\
   0 <= 2 < 65536 /\ 0 <= 0 < 65536 /\ 0 <= 3 < 65536) /\
  parseHeader (mkSlice (encode_header (mkHeader 4660 33152 1 2 0 3) ++ [x00]) [])
  = Ret (mkHeader 4660 33152 1 2 0 3).
Proof.
  split; [by_evaluation|].
  apply (parseHeader_round_trip (mkHeader 4660 33152 1 2 0 3) [x00] []);
    by_evaluation.
Defined.

(** *** parseQuestion *)

Lemma Parser_parseQuestion_after_name (buffer : slice) (offset : Z)
    (name : string) (n : Z) :
  Parser.parseDomainName buffer offset = Ret (name, n) ->
  Parser.parseQuestion buffer offset =
  if offset + n + 4 <=? cap buffer then
    Ret (mkQuestion name
           (big_endian (octets buffer (offset + n) 2))
           (big_endian (octets buffer (offset + n + 2) 2)),
         offset + n + 4)
  else Panic SliceBoundsOutOfRange.
Proof.
  intros Hname.
  destruct (Parser_parseDomainName_bound _ _ _ _ Hname) as (_ & _ & Hoff).
  unfold Parser.parseQuestion, parseQuestion. rewrite Hname. cbn [bind].
  cbv zeta. rewrite !read16_cases by lia.
  replace (offset + n + 2 + 2) with (offset + n + 4) by lia.
  destruct (Z.leb_spec (offset + n + 4) (cap buffer)).
  - destruct (Z.leb_spec (offset + n + 2) (cap buffer)); [|lia].
    reflexivity.
  - destruct (Z.leb_spec (offset + n + 2) (cap buffer)); reflexivity.
Qed.

(** X3.  [parseQuestion] of parser.go ends as the name decoder does when
    that panics; behind a decoded name it reads QTYPE and QCLASS as the two
    big-endian 16-bit integers that follow and returns the offset 4 octets
    behind the name, or panics with slice bounds out of range when the
    capacity of the buffer ends before them. *)
Theorem Parser_parseQuestion_fields (buffer : slice) (offset : Z) :
  Parser.parseQuestion buffer offset =
  match Parser.parseDomainName buffer offset with
  | Ret (name, n) =>
      if offset + n + 4 <=? cap buffer then
        Ret (mkQuestion name
               (big_endian (octets buffer (offset + n) 2))
               (big_endian (octets buffer (offset + n + 2) 2)),
             offset + n + 4)
      else Panic SliceBoundsOutOfRange
  | Panic k => Panic k
  | OutOfFuel => OutOfFuel
  end.
Proof.
  destruct (Parser.parseDomainName buffer offset) as [[name n]|k|] eqn:Hname.
  - apply Parser_parseQuestion_after_name. exact Hname.
  - unfold Parser.parseQuestion, parseQuestion. rewrite Hname. reflexivity.
  - unfold Parser.parseQuestion, parseQuestion. rewrite Hname. reflexivity.
Qed.

(** *** parseDomainName of parser.go, in full *)

Lemma app_split_length {A : Type} (a : list A) :
  forall (b c d : list A),
  a ++ b = c ++ d -> (List.length a <= List.length c)%nat ->
  exists m, c = a ++ m /\ b = m ++ d.
Proof.
  induction a as [|x a IH]; intros b c d E Hlen.
  - exists c. split; [reflexivity|exact E].
  - destruct c as [|y c]; [cbn [List.length] in Hlen; lia|].
    cbn [app] in E. injection E as <- E.
    cbn [List.length] in Hlen.
    destruct (IH b c d E ltac:(lia)) as (m & -> & ->).
    exists m. split; reflexivity.
Qed.

Lemma Parser_loop_wire_any (ls : list (list byte)) :
  forall (fuel : nat) (buffer : slice) (offset : Z) (acc : list string)
         (pre post : list byte),
  elems buffer = pre ++ wire ls ++ post ->
  wf_labels ls ->
  (List.length ls < fuel)%nat ->
  Parser.parseDomainName_loop fuel buffer offset acc (Z.of_nat (List.length pre)) =
  Ret (String.concat "." (acc ++ map string_of_list_byte ls),
       Z.of_nat (List.length pre) + label_octets ls + 1 - offset).
Proof.
  unfold wf_labels.
  induction ls as [|l ls IH]; intros fuel buffer offset acc pre post E Hls Hfuel;
    (destruct fuel as [|fuel]; [cbn [List.length] in Hfuel; lia|]);
    cbn [Parser.parseDomainName_loop wire] in *.
  - rewrite (index_at_split buffer pre post x00) by exact E. cbn [bind].
    change (byte_val x00 =? 0) with true. cbn [map label_octets].
    rewrite app_nil_r. do 2 f_equal. lia.
  - inversion Hls as [|? ? Hl Hls']; subst.
    rewrite <- app_comm_cons in E.
    rewrite (index_at_split buffer pre _ _ E). cbn [bind].
    rewrite byte_val_octet by lia.
    destruct (Z.eqb_spec (Z.of_nat (List.length l)) 0); [lia|].
    destruct (subslice_at_split buffer
                (pre ++ [octet (Z.of_nat (List.length l))]) l
                ((wire ls ++ post) ++ spare buffer)) as [rest Hsub].
    { unfold backing. rewrite E. rewrite <- ?app_assoc. cbn [app].
      rewrite <- ?app_assoc. reflexivity. }
    rewrite length_app in Hsub. cbn [List.length] in Hsub.
    replace (Z.of_nat (List.length pre + 1)) with (Z.of_nat (List.length pre) + 1)
      in Hsub by lia.
    rewrite Hsub. cbn [bind].
    replace (Z.of_nat (List.length pre) + 1 + Z.of_nat (List.length l))
      with (Z.of_nat (List.length (pre ++ octet (Z.of_nat (List.length l)) :: l)))
      by (rewrite length_app; cbn [List.length]; lia).
    rewrite (IH fuel buffer offset _ _ post).
    + unfold string_of. cbn [elems map label_octets].
      rewrite <- app_assoc. cbn [app]. do 2 f_equal.
      rewrite length_app. cbn [List.length]. lia.
    + rewrite E. rewrite <- ?app_assoc. cbn [app].
      rewrite <- ?app_assoc. reflexivity.
    + assumption.
    + cbn [List.length] in Hfuel. lia.
Qed.

Lemma Parser_parseDomainName_encoded (buffer : slice) (ls : list (list byte))
    (pre post : list byte) :
  elems buffer = pre ++ wire ls ++ post ->
  wf_labels ls ->
  Parser.parseDomainName buffer (Z.of_nat (List.length pre)) =
  Ret (join_labels ls, label_octets ls + 1).
Proof.
  intros E Hls. unfold Parser.parseDomainName.
  rewrite (Parser_loop_wire_any ls _ buffer _ [] pre post E Hls).
  - cbn [app]. unfold join_labels. do 2 f_equal. lia.
  - rewrite E, !length_app. pose proof (wire_length ls). lia.
Qed.

Lemma Parser_loop_decodes (fuel : nat) :
  forall (buffer : slice) (offset : Z) (labels : list string) (startOff : Z)
         (name : string) (n : Z),
  Parser.parseDomainName_loop fuel buffer offset labels startOff = Ret (name, n) ->
  exists ls pre post,
    elems buffer = pre ++ wire ls ++ post /\
    Z.of_nat (List.length pre) = startOff /\
    wf_labels ls /\
    name = String.concat "." (labels ++ map string_of_list_byte ls) /\
    n = startOff + label_octets ls + 1 - offset.
Proof.
  induction fuel as [|fuel IH]; intros buffer offset labels startOff name n E;
    cbn [Parser.parseDomainName_loop] in E; [discriminate|].
  destruct (index buffer startOff) as [b| |] eqn:Hb; cbn [bind] in E;
    try discriminate.
  pose proof (index_Ret_range _ _ _ Hb) as Hrange.
  unfold index in Hb. destruct (startOff <? 0); [discriminate|].
  destruct (nth_error (elems buffer) (Z.to_nat startOff)) as [b'|] eqn:Hnth;
    [|discriminate].
  injection Hb as ->.
  destruct (nth_error_split _ _ Hnth) as (pre & rest & Helems & Hpre).
  assert (Z.of_nat (List.length pre) = startOff) as Hstart by lia.
  pose proof (byte_val_range b) as Hbr.
  destruct (Z.eqb_spec (byte_val b) 0) as [Hz|Hnz].
  - injection E as <- <-.
    assert (b = x00) as -> by (rewrite <- (octet_byte_val b), Hz; reflexivity).
    exists [], pre, rest. cbn [wire map label_octets app].
    rewrite app_nil_r. repeat split; try assumption; try constructor. lia.
  - destruct (subslice buffer (startOff + 1) (startOff + 1 + byte_val b))
      as [label| |] eqn:Hl; cbn [bind] in E; try discriminate.
    destruct (IH _ _ _ _ _ _ E)
      as (ls & pre' & post & Helems' & Hpre' & Hwf & Hname & Hn).
    assert (exists m, pre' = (pre ++ [b]) ++ m /\ rest = m ++ wire ls ++ post)
      as (m & Hm & Hrest).
    { apply app_split_length.
      - rewrite <- app_assoc. cbn [app]. rewrite <- Helems. exact Helems'.
      - rewrite length_app. cbn [List.length]. lia. }
    assert (Z.of_nat (List.length m) = byte_val b) as Hlen.
    { rewrite Hm, !length_app in Hpre'. cbn [List.length] in Hpre'. lia. }
    destruct (subslice_at_split buffer (pre ++ [b]) m
                ((wire ls ++ post) ++ spare buffer)) as [sp Hsub].
    { unfold backing. rewrite Helems, Hrest. rewrite <- ?app_assoc. cbn [app].
      rewrite <- ?app_assoc. reflexivity. }
    rewrite length_app in Hsub. cbn [List.length] in Hsub.
    replace (Z.of_nat (List.length pre + 1)) with (startOff + 1) in Hsub by lia.
    rewrite Hlen, Hl in Hsub. injection Hsub as ->.
    exists (m :: ls), pre, post. cbn [wire map label_octets].
    rewrite Hlen, octet_byte_val. repeat split.
    + rewrite Helems, Hrest. rewrite <- ?app_assoc. cbn [app].
      rewrite <- ?app_assoc. reflexivity.
    + assumption.
    + constructor; [lia|exact Hwf].
    + rewrite Hname. unfold string_of. cbn [elems].
      rewrite <- app_assoc. reflexivity.
    + lia.
Qed.

(** X4.  [parseDomainName] of parser.go returns a name and a count exactly
    when the buffer holds, at the offset and within its length, labels of
    1 to 255 octets each behind their length octets and then a zero octet;
    the name is the labels joined with dots and the count is the number of
    those octets.  Length octets from 64 to 255, pointers among them, are
    taken for label lengths. *)
Theorem Parser_parseDomainName_iff (buffer : slice) (offset : Z)
    (name : string) (n : Z) :
  Parser.parseDomainName buffer offset = Ret (name, n) <->
  exists ls pre post,
    elems buffer = pre ++ wire ls ++ post /\
    Z.of_nat (List.length pre) = offset /\
    wf_labels ls /\
    name = join_labels ls /\
    n = label_octets ls + 1.
Proof.
  split.
  - unfold Parser.parseDomainName. intros E.
    destruct (Parser_loop_decodes _ _ _ _ _ _ _ E)
      as (ls & pre & post & He & Hp & Hwf & Hname & Hn).
    exists ls, pre, post. cbn [app] in Hname.
    repeat split; try assumption. lia.
  - intros (ls & pre & post & He & <- & Hwf & -> & ->).
    apply (Parser_parseDomainName_encoded buffer ls pre post); assumption.
Qed.

Lemma join_labels_length (ls : list (list byte)) :
  wf_labels ls -> ls <> [] ->
  Z.of_nat (String.length (join_labels ls)) + 1 = label_octets ls.
Proof.
  unfold wf_labels, join_labels.
  induction ls as [|l [|l' ls] IH]; intros Hwf Hne; [contradiction| |].
  - cbn [map String.concat label_octets]. rewrite string_length_of_bytes. lia.
  - inversion Hwf as [|? ? Hl Hwf']; subst.
    change (String.concat "." (map string_of_list_byte (l :: l' :: ls)))
      with (string_of_list_byte l ++ "."
            ++ String.concat "." (map string_of_list_byte (l' :: ls)))%string.
    rewrite !string_length_append, string_length_of_bytes.
    cbn [String.length]. specialize (IH Hwf' ltac:(discriminate)).
    cbn [label_octets] in *. lia.
Qed.

(** X5.  The count that [parseDomainName] of parser.go returns is fixed by
    the name: 1 for the empty name, and the length of the name plus 2 for
    any other. *)
Theorem Parser_count_of_name (buffer : slice) (offset : Z)
    (name : string) (n : Z) :
  Parser.parseDomainName buffer offset = Ret (name, n) ->
  (name = "" /\ n = 1) \/
  (name <> "" /\ n = Z.of_nat (String.length name) + 2).
Proof.
  unfold Parser.parseDomainName. intros E.
  destruct (Parser_loop_decodes _ _ _ _ _ _ _ E)
    as (ls & pre & post & _ & _ & Hwf & Hname & Hn).
  cbn [app] in Hname. fold (join_labels ls) in Hname.
  replace n with (label_octets ls + 1) by lia. subst name. clear Hn.
  destruct ls as [|l ls].
  - left. split; reflexivity.
  - right. pose proof (join_labels_length (l :: ls) Hwf ltac:(discriminate)) as J.
    split; [|lia].
    intros Hempty. rewrite Hempty in J. cbn [String.length] in J.
    inversion Hwf as [|? ? Hl _]; subst. cbn [label_octets] in J.
    assert (0 <= label_octets ls).
    { clear. induction ls as [|x ls IH]; cbn [label_octets]; lia. }
    lia.
Qed.

Lemma Parser_count_of_name_witness :
  Parser.parseDomainName www_com 0 = Ret ("www.com", 9) /\
  (("www.com" = "" /\ 9 = 1) \/
   ("www.com" <> "" /\ 9 = Z.of_nat (String.length "www.com") + 2)).
Proof.
  split; [by_evaluation|].
  apply (Parser_count_of_name www_com 0 "www.com" 9). by_evaluation.
Defined.

Lemma string_of_list_byte_app (l1 l2 : list byte) :
  string_of_list_byte (l1 ++ l2) =
  (string_of_list_byte l1 ++ string_of_list_byte l2)%string.
Proof.
  unfold string_of_list_byte.
  induction l1 as [|b l1 IH]; cbn [app map string_of_list_ascii String.append];
    [reflexivity | rewrite IH; reflexivity].
Qed.

(** X6.  Dots inside a label are not told apart from the dots between
    labels: the one label [l1 . l2] and the two labels [l1], [l2] take the
    same number of octets on the wire and are decoded by parser.go to the
    same name with the same count. *)
Theorem Parser_dot_in_label (b1 b2 : slice) (l1 l2 pre1 post1 pre2 post2 : list byte) :
  1 <= Z.of_nat (List.length l1) -> 1 <= Z.of_nat (List.length l2) ->
  Z.of_nat (List.length l1) + 1 + Z.of_nat (List.length l2) <= 255 ->
  elems b1 = pre1 ++ wire [l1 ++ octet 46 :: l2] ++ post1 ->
  elems b2 = pre2 ++ wire [l1; l2] ++ post2 ->
  Parser.parseDomainName b1 (Z.of_nat (List.length pre1)) =
    Ret (join_labels [l1; l2],
         Z.of_nat (List.length l1) + Z.of_nat (List.length l2) + 3) /\
  Parser.parseDomainName b2 (Z.of_nat (List.length pre2)) =
    Ret (join_labels [l1; l2],
         Z.of_nat (List.length l1) + Z.of_nat (List.length l2) + 3).
Proof.
  intros H1 H2 H255 E1 E2. split.
  - rewrite (Parser_parseDomainName_encoded b1 _ pre1 post1 E1).
    + unfold join_labels. cbn [map String.concat label_octets].
      rewrite string_of_list_byte_app. f_equal. f_equal.
      rewrite length_app. cbn [List.length]. lia.
    + repeat constructor; rewrite length_app; cbn [List.length]; lia.
  - rewrite (Parser_parseDomainName_encoded b2 _ pre2 post2 E2).
    + cbn [label_octets]. do 2 f_equal. lia.
    + repeat constructor; lia.
Qed.

Lemma Parser_dot_in_label_witness :
  (1 <= Z.of_nat (List.length [octet 97]) /\
   1 <= Z.of_nat (List.length [octet 98]) /\
   Z.of_nat (List.length [octet 97]) + 1 + Z.of_nat (List.length [octet 98])
   <= 255) /\
  Parser.parseDomainName (bytes [3; 97; 46; 98; 0]) 0 = Ret ("a.b", 5) /\
  Parser.parseDomainName (bytes [1; 97; 1; 98; 0]) 0 = Ret ("a.b", 5).
Proof.
  split; [by_evaluation|].
  apply (Parser_dot_in_label (bytes [3; 97; 46; 98; 0]) (bytes [1; 97; 1; 98; 0])
           [octet 97] [octet 98] [] [] [] []); by_evaluation.
Defined.

(** *** Decoding what the wire format encodes *)

Lemma octets_at_split (buffer : slice) (pre l post : list byte) (off n : Z) :
  backing buffer = pre ++ l ++ post ->
  off = Z.of_nat (List.length pre) -> n = Z.of_nat (List.length l) ->
  octets buffer off n = l.
Proof.
  intros E -> ->. unfold octets. rewrite E, !Nat2Z.id.
  rewrite skipn_app, skipn_all, Nat.sub_diag, skipn_O, app_nil_l.
  rewrite firstn_app, firstn_all, Nat.sub_diag, firstn_O. apply app_nil_r.
Qed.

Lemma wire_octets (ls : list (list byte)) :
  Z.of_nat (List.length (wire ls)) = label_octets ls + 1.
Proof.
  induction ls as [|l ls IH]; cbn [wire label_octets List.length]; [reflexivity|].
  rewrite length_app. lia.
Qed.

Lemma backing_of_elems (buffer : slice) (pre l post : list byte) :
  elems buffer = pre ++ l ++ post ->
  backing buffer = pre ++ l ++ (post ++ spare buffer).
Proof.
  intros E. unfold backing. rewrite E, <- !app_assoc. reflexivity.
Qed.

Lemma cap_of_split (buffer : slice) (pre l post : list byte) :
  backing buffer = pre ++ l ++ post ->
  Z.of_nat (List.length pre) + Z.of_nat (List.length l) <= cap buffer.
Proof.
  intros E. rewrite <- backing_length, E, !length_app. lia.
Qed.

Lemma Parser_parseQuestion_encoded (buffer : slice) (q : wire_question)
    (pre post : list byte) :
  elems buffer = pre ++ encode_question q ++ post ->
  wf_question q ->
  Parser.parseQuestion buffer (Z.of_nat (List.length pre)) =
  Ret (decoded_question q,
       Z.of_nat (List.length pre) + Z.of_nat (List.length (encode_question q))).
Proof.
  intros E (Hwf & Ht & Hc). destruct q as [ls t c].
  unfold encode_question, decoded_question in *.
  cbn [wq_labels wq_type wq_class] in *.
  rewrite <- !app_assoc in E.
  pose proof (Parser_parseDomainName_encoded buffer ls pre _ E Hwf) as Hname.
  pose proof (wire_octets ls) as Hw.
  apply backing_of_elems in E.
  assert (backing buffer =
          (pre ++ wire ls) ++ encode16 t ++ (encode16 c ++ post ++ spare buffer))
    as E1 by (rewrite E, <- !app_assoc; reflexivity).
  assert (backing buffer =
          (pre ++ wire ls ++ encode16 t) ++ encode16 c ++ (post ++ spare buffer))
    as E2 by (rewrite E, <- !app_assoc; reflexivity).
  rewrite (Parser_parseQuestion_after_name _ _ _ _ Hname).
  pose proof (cap_of_split _ _ _ _ E2) as Hcap.
  rewrite !length_app in Hcap. cbn [encode16 List.length] in Hcap.
  destruct (Z.leb_spec
              (Z.of_nat (List.length pre) + (label_octets ls + 1) + 4)
              (cap buffer)); [|lia].
  rewrite (octets_at_split _ _ _ _ _ _ E1)
    by (rewrite ?length_app; cbn [encode16 List.length]; lia).
  rewrite (octets_at_split _ _ _ _ _ _ E2)
    by (rewrite ?length_app; cbn [encode16 List.length]; lia).
  rewrite !big_endian_encode16 by assumption.
  do 2 f_equal. rewrite !length_app. cbn [encode16 List.length]. lia.
Qed.

Lemma Parser_parseResource_encoded (buffer : slice) (r : wire_resource)
    (pre post : list byte) :
  elems buffer = pre ++ encode_resource r ++ post ->
  wf_resource r ->
  Parser.parseResource buffer (Z.of_nat (List.length pre)) =
  Ret (decoded_resource r,
       Z.of_nat (List.length pre) + Z.of_nat (List.length (encode_resource r))).
Proof.
  intros E (Hwf & Ht & Hc & Httl & Hlen). destruct r as [ls t c ttl data].
  unfold encode_resource, decoded_resource in *.
  cbn [wr_labels wr_type wr_class wr_ttl wr_data] in *.
  set (dl := Z.of_nat (List.length data)) in *.
  rewrite <- !app_assoc in E.
  pose proof (Parser_parseDomainName_encoded buffer ls pre _ E Hwf) as Hname.
  pose proof (wire_octets ls) as Hw.
  apply backing_of_elems in E.
  assert (backing buffer =
          (pre ++ wire ls) ++ encode16 t
          ++ (encode16 c ++ encode32 ttl ++ encode16 dl ++ data
              ++ post ++ spare buffer))
    as E1 by (rewrite E, <- !app_assoc; reflexivity).
  assert (backing buffer =
          (pre ++ wire ls ++ encode16 t) ++ encode16 c
          ++ (encode32 ttl ++ encode16 dl ++ data ++ post ++ spare buffer))
    as E2 by (rewrite E, <- !app_assoc; reflexivity).
  assert (backing buffer =
          (pre ++ wire ls ++ encode16 t ++ encode16 c) ++ encode32 ttl
          ++ (encode16 dl ++ data ++ post ++ spare buffer))
    as E3 by (rewrite E, <- !app_assoc; reflexivity).
  assert (backing buffer =
          (pre ++ wire ls ++ encode16 t ++ encode16 c ++ encode32 ttl)
          ++ encode16 dl ++ (data ++ post ++ spare buffer))
    as E4 by (rewrite E, <- !app_assoc; reflexivity).
  assert (backing buffer =
          (pre ++ wire ls ++ encode16 t ++ encode16 c ++ encode32 ttl
           ++ encode16 dl) ++ data ++ (post ++ spare buffer))
    as E5 by (rewrite E, <- !app_assoc; reflexivity).
  pose proof (cap_of_split _ _ _ _ E5) as Hcap.
  rewrite !length_app in Hcap. cbn [encode16 encode32 List.length] in Hcap.
  fold dl in Hcap. assert (0 <= dl) as Hdl by (unfold dl; lia).
  rewrite (Parser_parseResource_fields _ _ _ _ Hname) by lia. cbv zeta.
  set (o := Z.of_nat (List.length pre) + (label_octets ls + 1)).
  rewrite (octets_at_split buffer _ _ _ (o + 8) 2 E4)
    by (rewrite ?length_app; cbn [encode16 encode32 List.length]; lia).
  rewrite (octets_at_split buffer _ _ _ o 2 E1)
    by (rewrite ?length_app; cbn [encode16 encode32 List.length]; lia).
  rewrite (octets_at_split buffer _ _ _ (o + 2) 2 E2)
    by (rewrite ?length_app; cbn [encode16 encode32 List.length]; lia).
  rewrite (octets_at_split buffer _ _ _ (o + 4) 4 E3)
    by (rewrite ?length_app; cbn [encode16 encode32 List.length]; lia).
  rewrite !big_endian_encode16 by lia.
  rewrite big_endian_encode32 by assumption.
  destruct (Z.leb_spec (o + 10 + dl) (cap buffer)); [|lia].
  rewrite (octets_at_split buffer _ _ _ (o + 10) dl E5)
    by (rewrite ?length_app; cbn [encode16 encode32 List.length]; lia).
  do 2 f_equal. rewrite !length_app. cbn [encode16 encode32 List.length].
  unfold o, dl. lia.
Qed.

Lemma parse_section_encoded {A W : Type}
    (parse : slice -> Z -> outcome (A * Z)) (enc : W -> list byte)
    (dec : W -> A) (wf : W -> Prop) :
  (forall buffer w pre post,
     elems buffer = pre ++ enc w ++ post -> wf w ->
     parse buffer (Z.of_nat (List.length pre)) =
     Ret (dec w, Z.of_nat (List.length pre) + Z.of_nat (List.length (enc w)))) ->
  forall (ws : list W) (buffer : slice) (pre post : list byte) (acc : list A),
  elems buffer = pre ++ flat_map enc ws ++ post ->
  Forall wf ws ->
  parse_section parse (List.length ws) buffer (Z.of_nat (List.length pre)) acc =
  Ret (acc ++ map dec ws,
       Z.of_nat (List.length pre) + Z.of_nat (List.length (flat_map enc ws))).
Proof.
  intros Hparse. induction ws as [|w ws IH]; intros buffer pre post acc E Hwf;
    cbn [List.length parse_section flat_map map].
  - rewrite app_nil_r. do 2 f_equal. lia.
  - inversion Hwf as [|? ? Hw Hws]; subst. cbn [flat_map] in E.
    rewrite <- app_assoc in E.
    rewrite (Hparse buffer w pre _ E Hw). cbn [bind].
    replace (Z.of_nat (List.length pre) + Z.of_nat (List.length (enc w)))
      with (Z.of_nat (List.length (pre ++ enc w)))
      by (rewrite length_app; lia).
    rewrite (IH buffer (pre ++ enc w) post)
      by (try assumption; rewrite E, <- app_assoc; reflexivity).
    rewrite <- app_assoc. cbn [app]. do 2 f_equal.
    rewrite !length_app. lia.
Qed.

(** X7.  Message round trip: for every message in the wire format of RFC
    1035 with uncompressed names (a header that counts its records, then
    the questions, answers, authorities and additionals), whatever bytes
    follow it in the buffer and whatever the valid length, [Read] of
    parser.go returns without error the payload with that header and those
    questions and records, in order. *)
Theorem Parser_Read_round_trip (id flags : Z) (questions : list wire_question)
    (answers authorities additionals : list wire_resource)
    (trailing sp : list byte) (n : Z) :
  0 <= id < 65536 -> 0 <= flags < 65536 ->
  Z.of_nat (List.length questions) < 65536 ->
  Z.of_nat (List.length answers) < 65536 ->
  Z.of_nat (List.length authorities) < 65536 ->
  Z.of_nat (List.length additionals) < 65536 ->
  Forall wf_question questions -> Forall wf_resource answers ->
  Forall wf_resource authorities -> Forall wf_resource additionals ->
  let buffer :=
    mkSlice (encode_message id flags questions answers authorities additionals
             ++ trailing) sp in
  0 <= n <= len buffer ->
  snd (Parser.Read buffer n) =
  Ret (mkPayload
         (counting_header id flags questions answers authorities additionals)
         (map decoded_question questions) (map decoded_resource answers)
         (map decoded_resource authorities) (map decoded_resource additionals),
       None).
Proof.
  intros Hid Hflags Hq Han Hau Had Wq Wan Wau Wad buffer Hn.
  set (h := counting_header id flags questions answers authorities additionals).
  assert (elems buffer =
          encode_header h ++ flat_map encode_question questions
          ++ flat_map encode_resource answers
          ++ flat_map encode_resource authorities
          ++ flat_map encode_resource additionals ++ trailing) as E.
  { unfold buffer, encode_message. cbn [elems]. fold h.
    rewrite <- !app_assoc. reflexivity. }
  assert (12 <= len buffer) as H12.
  { unfold len. rewrite E, length_app, encode_header_length. lia. }
  assert (header_at_0 buffer = h) as Hh.
  { unfold buffer, encode_message. fold h. rewrite <- app_assoc.
    apply header_at_0_encode; cbn; lia. }
  pose proof (len_le_cap buffer).
  unfold Parser.Read. rewrite Read_outcome by lia.
  destruct (Z.ltb_spec (len buffer) 12); [lia|].
  rewrite Hh. unfold read_sections.
  cbn [h counting_header QdCount AnCount NsCount ArCount].
  rewrite !Nat2Z.id.
  change 12 with (Z.of_nat (List.length (encode_header h))).
  change (parseQuestion Parser.parseDomainName) with Parser.parseQuestion.
  set (eq := flat_map encode_question questions) in *.
  set (ean := flat_map encode_resource answers) in *.
  set (eau := flat_map encode_resource authorities) in *.
  set (ead := flat_map encode_resource additionals) in *.
  assert (elems buffer = (encode_header h ++ eq) ++ ean ++ (eau ++ ead ++ trailing))
    as Ean by (rewrite E, <- !app_assoc; reflexivity).
  assert (elems buffer = (encode_header h ++ eq ++ ean) ++ eau ++ (ead ++ trailing))
    as Eau by (rewrite E, <- !app_assoc; reflexivity).
  assert (elems buffer = (encode_header h ++ eq ++ ean ++ eau) ++ ead ++ trailing)
    as Ead by (rewrite E, <- !app_assoc; reflexivity).
  rewrite (parse_section_encoded _ encode_question decoded_question wf_question
             Parser_parseQuestion_encoded questions buffer (encode_header h) _ []
             E Wq).
  cbn [bind app]. fold eq.
  replace (Z.of_nat (List.length (encode_header h)) + Z.of_nat (List.length eq))
    with (Z.of_nat (List.length (encode_header h ++ eq)))
    by (rewrite length_app; lia).
  rewrite (parse_section_encoded _ encode_resource decoded_resource wf_resource
             Parser_parseResource_encoded answers buffer _ _ [] Ean Wan).
  cbn [bind app]. fold ean.
  replace (Z.of_nat (List.length (encode_header h ++ eq))
           + Z.of_nat (List.length ean))
    with (Z.of_nat (List.length (encode_header h ++ eq ++ ean)))
    by (rewrite !length_app; lia).
  rewrite (parse_section_encoded _ encode_resource decoded_resource wf_resource
             Parser_parseResource_encoded authorities buffer _ _ [] Eau Wau).
  cbn [bind app]. fold eau.
  replace (Z.of_nat (List.length (encode_header h ++ eq ++ ean))
           + Z.of_nat (List.length eau))
    with (Z.of_nat (List.length (encode_header h ++ eq ++ ean ++ eau)))
    by (rewrite !length_app; lia).
  rewrite (parse_section_encoded _ encode_resource decoded_resource wf_resource
             Parser_parseResource_encoded additionals buffer _ _ [] Ead Wad).
  cbn [bind app]. reflexivity.
Qed.

Lemma Parser_Read_round_trip_witness :
  (0 <= 4660 < 65536 /\ 0 <= 256 < 65536 /\
   Forall wf_question [www_com_question] /\
   Forall wf_resource [www_com_answer]) /\
  snd (Parser.Read
         (mkSlice (encode_message 4660 256 [www_com_question] [www_com_answer]
                     [] [] ++ [octet 255]) []) 5) =
  Ret (mkPayload (mkHeader 4660 256 1 1 0 0)
         [mkQuestion "www.com" 1 1]
         [mkResource "www.com" 1 1 60 4 (map octet [1; 2; 3; 4])] [] [],
       None).
Proof.
  split; [well_formed|].
  pose proof (Parser_Read_round_trip 4660 256 [www_com_question]
                [www_com_answer] [] [] [octet 255] [] 5
                ltac:(well_formed) ltac:(well_formed) ltac:(well_formed)
                ltac:(well_formed) ltac:(well_formed) ltac:(well_formed)
                ltac:(well_formed) ltac:(well_formed) ltac:(well_formed)
                ltac:(well_formed) ltac:(well_formed)) as P.
  vm_compute in P. vm_compute. exact P.
Defined.

(** *** The second parser file: pointers inside NS RDATA *)

(** X8.  In the second parser file a record of type 2, class 1 (NS, IN)
    whose RDATA begins with a compression pointer [192, t] to an offset [t]
    not below RDLENGTH makes [parseResource] panic with index out of range:
    the pointer is looked up in the RDATA sub-slice, not in the message. *)
Theorem Part000_ns_pointer_panics (fuel : nat) (buffer : slice) (offset : Z)
    (name : string) (n : Z) (p t : byte) (rest : list byte) :
  Part000.parseDomainName (S (S fuel)) buffer offset = Ret (name, n) ->
  big_endian (octets buffer (offset + n) 2) = 2 ->
  big_endian (octets buffer (offset + n + 2) 2) = 1 ->
  offset + n + 10 + big_endian (octets buffer (offset + n + 8) 2) <= cap buffer ->
  octets buffer (offset + n + 10) (big_endian (octets buffer (offset + n + 8) 2))
  = p :: t :: rest ->
  byte_val p = 192 ->
  big_endian (octets buffer (offset + n + 8) 2) <= byte_val t ->
  Part000.parseResource (S (S fuel)) buffer offset = Panic IndexOutOfRange.
Proof.
  intros Hname Htype Hclass Hcap Hdata Hp Ht.
  pose proof (Part000_loop_count _ _ _ _ _ _ _ Hname) as Hoff.
  set (rdlen := big_endian (octets buffer (offset + n + 8) 2)) in *.
  assert (0 <= rdlen < 65536) as Hrd.
  { apply big_endian_2_range. rewrite octets_length; [reflexivity|lia|lia|].
    destruct (Z.le_gt_cases (offset + n + 10) (cap buffer)); [lia|].
    exfalso. unfold octets in Hdata.
    rewrite skipn_all2 in Hdata by (pose proof (backing_length buffer); lia).
    rewrite firstn_nil in Hdata. discriminate. }
  rewrite (Part000_parseResource_fields _ _ _ _ _ Hname) by lia. cbv zeta.
  fold rdlen. rewrite Htype, Hclass, Hdata.
  destruct (Z.leb_spec (offset + n + 10 + rdlen) (cap buffer)); [|lia].
  cbn [Z.eqb Pos.eqb andb].
  assert (Z.of_nat (List.length (p :: t :: rest)) = rdlen) as Hlen.
  { rewrite <- Hdata, octets_length by lia. lia. }
  set (rd := mkSlice (p :: t :: rest) _).
  unfold Part000.parseDomainName. cbn [Part000.parseDomainName_loop].
  change (index rd 0) with (Ret p). cbn [bind]. rewrite Hp.
  cbn [Z.eqb Pos.eqb]. change (index rd (0 + 1)) with (Ret t). cbn [bind].
  rewrite (index_out_of_range rd (byte_val t)) by (unfold len, rd; cbn [elems]; lia).
  reflexivity.
Qed.

Lemma Part000_ns_pointer_panics_witness :
  (Part000.parseDomainName 2 (bytes [0; 0; 0; 2; 0; 1; 0; 0; 0; 60; 0; 2; 192; 12])
     0 = Ret ("", 2)) /\
  Part000.parseResource 2 (bytes [0; 0; 0; 2; 0; 1; 0; 0; 0; 60; 0; 2; 192; 12]) 0
  = Panic IndexOutOfRange.
Proof.
  split; [by_evaluation|].
  apply (Part000_ns_pointer_panics 0
           (bytes [0; 0; 0; 2; 0; 1; 0; 0; 0; 60; 0; 2; 192; 12]) 0 "" 2
           (octet 192) (octet 12) []); by_evaluation.
Defined.

(** *** main.go: registering clients and relaying replies *)

Lemma Question_eqb_eq (a b : Question) : Main.Question_eqb a b = true <-> a = b.
Proof.
  unfold Main.Question_eqb. destruct a as [n1 t1 c1], b as [n2 t2 c2].
  cbn [QName QType QClass].
  rewrite !andb_true_iff, String.eqb_eq, !Z.eqb_eq. split.
  - intros [[-> ->] ->]. reflexivity.
  - intros E. injection E as -> -> ->. repeat split.
Qed.

Lemma store_lookup {V : Type} (m : Main.qmap V) (q k : Question) (v : V) :
  Main.store m q v k = if Main.Question_eqb k q then Some v else m k.
Proof. reflexivity. Qed.

Lemma Question_eq_dec (a b : Question) : {a = b} + {a <> b}.
Proof.
  destruct (Main.Question_eqb a b) eqn:E.
  - left. apply Question_eqb_eq. exact E.
  - right. intros H. apply Question_eqb_eq in H. congruence.
Qed.

Lemma register_lookup_dec (questions : list Question) (clientAddr : string)
    (registryMap : Main.qmap string) (k : Question) :
  Main.register questions clientAddr registryMap k =
  if in_dec Question_eq_dec k questions then Some clientAddr
  else registryMap k.
Proof.
  revert registryMap.
  induction questions as [|q questions IH]; intros registryMap;
    cbn [Main.register]; [reflexivity|].
  rewrite IH, store_lookup.
  destruct (in_dec Question_eq_dec k questions) as [Hin|Hout];
    destruct (in_dec Question_eq_dec k (q :: questions)) as [Hin'|Hout'];
    cbn [In] in *; try reflexivity; try tauto.
  - destruct Hin' as [->|?]; [|contradiction].
    rewrite (proj2 (Question_eqb_eq k k) eq_refl). reflexivity.
  - destruct (Main.Question_eqb k q) eqn:E; [|reflexivity].
    apply Question_eqb_eq in E. subst. tauto.
Qed.

(** X9.  After the registration loop of main.go every question of the
    query maps to the client's address, whatever was registered for it
    before (a second client asking the same question takes the place of the
    first), and no other entry of the registry changes. *)
Theorem register_lookup (questions : list Question) (clientAddr : string)
    (registryMap : Main.qmap string) (k : Question) :
  (In k questions ->
   Main.register questions clientAddr registryMap k = Some clientAddr) /\
  (~ In k questions ->
   Main.register questions clientAddr registryMap k = registryMap k) /\
  (forall other, In k questions ->
   Main.register questions clientAddr
     (Main.register questions other registryMap) k = Some clientAddr).
Proof.
  repeat split; intros; rewrite register_lookup_dec;
    destruct (in_dec Question_eq_dec k questions); try reflexivity;
    contradiction.
Qed.

Lemma relay_with_answer (first : Resource) (rest : list Resource)
    (datagram : list byte) (registryMap : Main.qmap string)
    (questions : list Question) :
  forall cacheDnsResolutions : Main.qmap Resource,
  fst (Main.relay questions (first :: rest) datagram registryMap
         cacheDnsResolutions) =
    flat_map (fun q => match registryMap q with
                       | Some addr => [Main.WriteToUDP datagram addr]
                       | None => []
                       end) questions /\
  exists cache',
    snd (Main.relay questions (first :: rest) datagram registryMap
           cacheDnsResolutions) = Ret cache' /\
    forall k, cache' k = if in_dec Question_eq_dec k questions then Some first
                         else cacheDnsResolutions k.
Proof.
  induction questions as [|q questions IH]; intros cacheDnsResolutions;
    cbn [Main.relay flat_map].
  - split; [reflexivity|]. exists cacheDnsResolutions. split; reflexivity.
  - destruct (IH (Main.store cacheDnsResolutions q first))
      as (Hout & cache' & Hres & Hcache).
    destruct (Main.relay questions (first :: rest) datagram registryMap
                (Main.store cacheDnsResolutions q first)) as [out' result].
    cbn [fst snd] in *. subst out'. split; [reflexivity|].
    exists cache'. split; [assumption|].
    intros k. rewrite Hcache, store_lookup.
    destruct (in_dec Question_eq_dec k questions) as [Hin|Hout];
      destruct (in_dec Question_eq_dec k (q :: questions)) as [Hin'|Hout'];
      cbn [In] in *; try reflexivity; try tauto.
    + destruct Hin' as [->|?]; [|contradiction].
      rewrite (proj2 (Question_eqb_eq k k) eq_refl). reflexivity.
    + destruct (Main.Question_eqb k q) eqn:E; [|reflexivity].
      apply Question_eqb_eq in E. subst. tauto.
Qed.

(** X10.  The reply loop of main.go panics with index out of range, before
    anything is sent, exactly when the reply has a question and no answer.
    Otherwise it ends normally: the first answer is cached under every
    question of the reply, all other cache entries are kept, and the
    datagram is sent once for each question found in the registry, in
    order, to the registered address. *)
Theorem relay_ends (questions : list Question) (answers : list Resource)
    (datagram : list byte) (registryMap : Main.qmap string)
    (cacheDnsResolutions : Main.qmap Resource) :
  match questions, answers with
  | _ :: _, [] =>
      Main.relay questions answers datagram registryMap cacheDnsResolutions =
      ([], Panic IndexOutOfRange)
  | [], _ =>
      Main.relay questions answers datagram registryMap cacheDnsResolutions =
      ([], Ret cacheDnsResolutions)
  | _ :: _, first :: _ =>
      fst (Main.relay questions answers datagram registryMap
             cacheDnsResolutions) =
        flat_map (fun q => match registryMap q with
                           | Some addr => [Main.WriteToUDP datagram addr]
                           | None => []
                           end) questions /\
      exists cache',
        snd (Main.relay questions answers datagram registryMap
               cacheDnsResolutions) = Ret cache' /\
        forall k, cache' k =
                  if in_dec Question_eq_dec k questions then Some first
                  else cacheDnsResolutions k
  end.
Proof.
  destruct questions as [|q questions]; [reflexivity|].
  destruct answers as [|first rest]; [reflexivity|].
  apply relay_with_answer.
Qed.

(** X11.  A datagram that [Read] of parser.go decodes with a header that
    counts at least one question and no answer (an upstream reply without
    answer records, or the query itself) makes the reply loop of main.go
    panic with index out of range, and nothing is sent to the client. *)
Theorem reply_without_answer_panics (buffer : slice) (n : Z) (p : Payload)
    (datagram : list byte) (registryMap : Main.qmap string)
    (cacheDnsResolutions : Main.qmap Resource) :
  0 <= n <= len buffer ->
  snd (Parser.Read buffer n) = Ret (p, None) ->
  1 <= QdCount (header_at_0 buffer) ->
  AnCount (header_at_0 buffer) = 0 ->
  Main.relay (Questions p) (Answers p) datagram registryMap cacheDnsResolutions
  = ([], Panic IndexOutOfRange).
Proof.
  intros Hn Hread Hqd Han.
  destruct (Parser_Read_cases buffer n Hn)
    as [[k Hk]|[[_ Hs]|(_ & p' & Hr & Hsec)]]; try congruence.
  assert (p' = p) as -> by congruence.
  apply read_sections_counts in Hsec.
  destruct Hsec as (_ & Hq & Ha & _).
  destruct (Questions p) as [|q qs]; [cbn [List.length] in Hq; lia|].
  destruct (Answers p) as [|a ans];
    [reflexivity|rewrite Han in Ha; cbn [List.length] in Ha; lia].
Qed.

Lemma reply_without_answer_panics_witness :
  (0 <= 17 <= len query_root /\
   snd (Parser.Read query_root 17) =
     Ret (mkPayload (mkHeader 1 0 1 0 0 0) [mkQuestion "" 1 1] [] [] [], None) /\
   1 <= QdCount (header_at_0 query_root) /\
   AnCount (header_at_0 query_root) = 0) /\
  Main.relay [mkQuestion "" 1 1] [] (elems query_root) Main.empty Main.empty
  = ([], Panic IndexOutOfRange).
Proof.
  split; [by_evaluation|].
  apply (reply_without_answer_panics query_root 17
           (mkPayload (mkHeader 1 0 1 0 0 0) [mkQuestion "" 1 1] [] [] [])
           (elems query_root) Main.empty Main.empty); by_evaluation.
Defined.

Lemma flat_map_constant {A B : Type} (f : A -> list B) (x : B) (l : list A) :
  (forall a, In a l -> f a = [x]) -> flat_map f l = map (fun _ => x) l.
Proof.
  induction l as [|a l IH]; intros H; cbn [flat_map map]; [reflexivity|].
  rewrite (H a (or_introl eq_refl)), IH by (intros; apply H; right; assumption).
  reflexivity.
Qed.

(** X12.  Registration and reply together: when a reply with at least one
    answer repeats the questions that a client has just been registered
    for, the reply loop of main.go sends the datagram to that client once
    per question, and to nobody else. *)
Theorem registered_client_gets_reply (questions : list Question)
    (clientAddr : string) (registryMap : Main.qmap string)
    (first : Resource) (rest : list Resource) (datagram : list byte)
    (cacheDnsResolutions : Main.qmap Resource) :
  fst (Main.relay questions (first :: rest) datagram
         (Main.register questions clientAddr registryMap) cacheDnsResolutions)
  = map (fun _ => Main.WriteToUDP datagram clientAddr) questions.
Proof.
  destruct (relay_with_answer first rest datagram
              (Main.register questions clientAddr registryMap) questions
              cacheDnsResolutions) as [-> _].
  apply flat_map_constant. intros q Hq.
  rewrite register_lookup_dec.
  destruct (in_dec Question_eq_dec q questions); [reflexivity|contradiction].
Qed.

(** *** parser.go reads a name and nothing else *)

(** X13.  What [parseDomainName] of parser.go returns depends only on the
    [n] octets it counts: wherever the same octets stand within the length
    of a buffer, at whatever offset, they are decoded to the same name and
    the same count. *)
Theorem Parser_name_is_local (b1 b2 : slice) (off1 off2 : Z)
    (name : string) (n : Z) :
  Parser.parseDomainName b1 off1 = Ret (name, n) ->
  0 <= off2 -> off2 + n <= len b2 ->
  firstn (Z.to_nat n) (skipn (Z.to_nat off2) (elems b2)) =
  firstn (Z.to_nat n) (skipn (Z.to_nat off1) (elems b1)) ->
  Parser.parseDomainName b2 off2 = Ret (name, n).
Proof.
  unfold Parser.parseDomainName at 1. intros E Hoff Hlen Hsame.
  destruct (Parser_loop_decodes _ _ _ _ _ _ _ E)
    as (ls & pre & post & He & Hpre & Hwf & Hname & Hn).
  cbn [app] in Hname. fold (join_labels ls) in Hname.
  pose proof (wire_octets ls) as Hw.
  assert (n = Z.of_nat (List.length (wire ls))) as Hnw by lia.
  assert (firstn (Z.to_nat n) (skipn (Z.to_nat off1) (elems b1)) = wire ls)
    as Hseg.
  { rewrite He, <- Hpre, Hnw, !Nat2Z.id.
    rewrite skipn_app, skipn_all, Nat.sub_diag, skipn_O, app_nil_l.
    rewrite firstn_app, firstn_all, Nat.sub_diag, firstn_O. apply app_nil_r. }
  rewrite Hseg in Hsame.
  assert (elems b2 =
          firstn (Z.to_nat off2) (elems b2) ++ wire ls
          ++ skipn (Z.to_nat n) (skipn (Z.to_nat off2) (elems b2))) as He2.
  { rewrite <- Hsame, firstn_skipn, firstn_skipn. reflexivity. }
  assert (Z.of_nat (List.length (firstn (Z.to_nat off2) (elems b2))) = off2)
    as Hpre2.
  { rewrite length_firstn. unfold len in Hlen. lia. }
  rewrite <- Hpre2 at 1.
  rewrite (Parser_parseDomainName_encoded b2 ls _ _ He2 Hwf).
  rewrite Hname. do 2 f_equal. lia.
Qed.

Lemma Parser_name_is_local_witness :
  (Parser.parseDomainName www_com 0 = Ret ("www.com", 9) /\
   0 <= 12 /\
   12 + 9 <= len (bytes [0; 0; 0; 0; 0; 0; 0; 0; 0; 0; 0; 0;
                         3; 119; 119; 119; 3; 99; 111; 109; 0; 0; 1])) /\
  Parser.parseDomainName
    (bytes [0; 0; 0; 0; 0; 0; 0; 0; 0; 0; 0; 0;
            3; 119; 119; 119; 3; 99; 111; 109; 0; 0; 1]) 12
  = Ret ("www.com", 9).
Proof.
  split; [by_evaluation|].
  apply (Parser_name_is_local www_com
           (bytes [0; 0; 0; 0; 0; 0; 0; 0; 0; 0; 0; 0;
                   3; 119; 119; 119; 3; 99; 111; 109; 0; 0; 1])
           0 12 "www.com" 9); by_evaluation.
Defined.

(** *** The second parser file: labels, then a pointer *)

Lemma Part000_labels_then_pointer_witness :
  Part000.parseDomainName 1
    (bytes [0; 0; 0; 0; 0; 1; 0; 0; 0; 0; 0; 0; 3; 99; 111; 109;
            5; 104; 101; 108; 108; 111; 192; 12]) (byte_val (octet 12))
  = Ret ("com", 5) /\
  Part000.parseDomainName 3
    (bytes [0; 0; 0; 0; 0; 1; 0; 0; 0; 0; 0; 0; 3; 99; 111; 109;
            5; 104; 101; 108; 108; 111; 192; 12]) 16 = Ret ("hello.com", 8).
Proof.
  split; [by_evaluation|].
  apply (Part000_labels_then_pointer [map octet [104; 101; 108; 108; 111]] 1
           (bytes [0; 0; 0; 0; 0; 1; 0; 0; 0; 0; 0; 0; 3; 99; 111; 109;
                   5; 104; 101; 108; 108; 111; 192; 12]) 16 ""
           (map octet [0; 0; 0; 0; 0; 1; 0; 0; 0; 0; 0; 0; 3; 99; 111; 109])
           [] (octet 12) "com" 5).
  - reflexivity.
  - constructor; [|constructor].
    split; [by_evaluation|]. exists (octet 1). by_evaluation.
  - by_evaluation.
Defined.

(** *** The second parser file: Read *)

(** X15.  [Read] of the second parser file never returns a partial
    message either: whenever it returns, for a valid length within the
    buffer, it is the short-header error with the empty payload (and the
    buffer has fewer than 12 bytes), or no error with the header at offset
    0 and exactly as many questions, answers, authorities and additionals
    as that header counts. *)
Theorem Part000_Read_all_or_nothing (fuel : nat) (buffer : slice) (n : Z)
    (p : Payload) (e : option error) :
  0 <= n <= len buffer ->
  snd (Part000.Read fuel buffer n) = Ret (p, e) ->
  (len buffer < 12 /\ p = zero_Payload /\ e = Some short_header_error) \/
  (12 <= len buffer /\ e = None /\
   PHeader p = header_at_0 buffer /\
   Z.of_nat (List.length (Questions p)) = QdCount (PHeader p) /\
   Z.of_nat (List.length (Answers p)) = AnCount (PHeader p) /\
   Z.of_nat (List.length (Authorities p)) = NsCount (PHeader p) /\
   Z.of_nat (List.length (Additionals p)) = ArCount (PHeader p)).
Proof.
  intros Hn E. pose proof (len_le_cap buffer).
  unfold Part000.Read in E. rewrite Read_outcome in E by lia.
  destruct (Z.ltb_spec (len buffer) 12) as [Hlt|Hge].
  - left. injection E as <- <-. repeat split. assumption.
  - right.
    destruct (read_sections _ _ (header_at_0 buffer) buffer) as [p'| |] eqn:Hs;
      cbn [bind] in E; try discriminate.
    injection E as <- <-. apply read_sections_counts in Hs.
    destruct Hs as (Hh & Hq & Ha & Hns & Har).
    pose proof (header_counts_range buffer ltac:(lia)) as Hc. cbv zeta in Hc.
    rewrite Hh. repeat split; try assumption; lia.
Qed.

Lemma register_lookup_witness :
  In (mkQuestion "www.com" 1 1) [mkQuestion "www.com" 1 1] /\
  Main.register [mkQuestion "www.com" 1 1] "192.0.2.7:5353"
    (Main.register [mkQuestion "www.com" 1 1] "192.0.2.1:5353" Main.empty)
    (mkQuestion "www.com" 1 1) = Some "192.0.2.7:5353".
Proof.
  split; [left; reflexivity|].
  apply (register_lookup [mkQuestion "www.com" 1 1] "192.0.2.7:5353"
           Main.empty (mkQuestion "www.com" 1 1)).
  left. reflexivity.
Defined.

(** ** Pointers and label lengths in both parser files *)









(** ** Resource records in both parser files, in full *)

Lemma big_endian_nonneg (l : list byte) : 0 <= big_endian l.
Proof.
  unfold big_endian.
  assert (forall acc, 0 <= acc ->
            0 <= fold_left (fun a b => a * 256 + byte_val b) l acc) as H.
  { induction l as [|b l IH]; intros acc Hacc; cbn [fold_left]; [assumption|].
    apply IH. pose proof (byte_val_range b). lia. }
  apply H. lia.
Qed.

Lemma read32_cases (buffer : slice) (off : Z) :
  0 <= off ->
  (s <- subslice buffer off (off + 4);; BigEndian.Uint32 s) =
  if off + 4 <=? cap buffer then Ret (big_endian (octets buffer off 4))
  else Panic SliceBoundsOutOfRange.
Proof.
  intros H. destruct (Z.leb_spec (off + 4) (cap buffer)).
  - apply read32_in_range; assumption.
  - apply read32_out_of_range. lia.
Qed.

(** A record whose fixed fields reach past the capacity. *)
Lemma Parser_parseResource_short (buffer : slice) (offset : Z)
    (name : string) (n : Z) :
  Parser.parseDomainName buffer offset = Ret (name, n) ->
  cap buffer < offset + n + 10 ->
  Parser.parseResource buffer offset = Panic SliceBoundsOutOfRange.
Proof.
  intros Hname Hcap.
  destruct (Parser_parseDomainName_bound _ _ _ _ Hname) as (_ & _ & Hoff).
  unfold Parser.parseResource. rewrite Hname. cbn [bind]. cbv zeta.
  rewrite (read16_cases buffer (offset + n)) by lia.
  destruct (Z.leb_spec (offset + n + 2) (cap buffer)); cbn [bind];
    [|reflexivity].
  rewrite (read16_cases buffer (offset + n + 2)) by lia.
  destruct (Z.leb_spec (offset + n + 2 + 2) (cap buffer)); cbn [bind];
    [|reflexivity].
  rewrite (read32_cases buffer (offset + n + 2 + 2)) by lia.
  destruct (Z.leb_spec (offset + n + 2 + 2 + 4) (cap buffer)); cbn [bind];
    [|reflexivity].
  rewrite (read16_cases buffer (offset + n + 2 + 2 + 4)) by lia.
  destruct (Z.leb_spec (offset + n + 2 + 2 + 4 + 2) (cap buffer)); cbn [bind];
    [lia|reflexivity].
Qed.

Lemma Part000_parseResource_short (fuel : nat) (buffer : slice) (offset : Z)
    (name : string) (n : Z) :
  Part000.parseDomainName fuel buffer offset = Ret (name, n) ->
  cap buffer < offset + n + 10 ->
  Part000.parseResource fuel buffer offset = Panic SliceBoundsOutOfRange.
Proof.
  intros Hname Hcap.
  pose proof (Part000_loop_count _ _ _ _ _ _ _ Hname) as Hoff.
  unfold Part000.parseResource. rewrite Hname. cbn [bind]. cbv zeta.
  rewrite (read16_cases buffer (offset + n)) by lia.
  destruct (Z.leb_spec (offset + n + 2) (cap buffer)); cbn [bind];
    [|reflexivity].
  rewrite (read16_cases buffer (offset + n + 2)) by lia.
  destruct (Z.leb_spec (offset + n + 2 + 2) (cap buffer)); cbn [bind];
    [|reflexivity].
  rewrite (read32_cases buffer (offset + n + 2 + 2)) by lia.
  destruct (Z.leb_spec (offset + n + 2 + 2 + 4) (cap buffer)); cbn [bind];
    [|reflexivity].
  rewrite (read16_cases buffer (offset + n + 2 + 2 + 4)) by lia.
  destruct (Z.leb_spec (offset + n + 2 + 2 + 4 + 2) (cap buffer)); cbn [bind];
    [lia|reflexivity].
Qed.

(** C7, as the code has it.  [parseResource] ends as the name decoder does
    when that does not return.  Behind a decoded name it reads type, class,
    TTL and RDLENGTH as big-endian integers and then exactly RDLENGTH
    octets of RDATA at the cursor behind them; when the fields or those
    octets do not lie within the capacity of the buffer it panics (slice
    bounds out of range): there is no truncated-record error.  parser.go
    returns the RDATA octets as they are for every type and class; the
    second parser file does so for every pair but type 2 with class 1,
    where RData is the name that [parseDomainName] decodes from the RDATA
    sub-slice at offset 0 (and the call ends as that decoding does when it
    does not return). *)
Theorem parseResource_rdata :
  (forall (buffer : slice) (offset : Z),
     Parser.parseResource buffer offset =
     match Parser.parseDomainName buffer offset with
     | Ret (name, n) =>
         let cursor := offset + n + 10 in
         let rdlen := big_endian (octets buffer (offset + n + 8) 2) in
         if cursor + rdlen <=? cap buffer then
           Ret (mkResource name
                  (big_endian (octets buffer (offset + n) 2))
                  (big_endian (octets buffer (offset + n + 2) 2))
                  (big_endian (octets buffer (offset + n + 4) 4))
                  rdlen
                  (octets buffer cursor rdlen),
                cursor + rdlen)
         else Panic SliceBoundsOutOfRange
     | Panic k => Panic k
     | OutOfFuel => OutOfFuel
     end) /\
  (forall (fuel : nat) (buffer : slice) (offset : Z),
     Part000.parseResource fuel buffer offset =
     match Part000.parseDomainName fuel buffer offset with
     | Ret (name, n) =>
         let cursor := offset + n + 10 in
         let rtype := big_endian (octets buffer (offset + n) 2) in
         let rclass := big_endian (octets buffer (offset + n + 2) 2) in
         let rttl := big_endian (octets buffer (offset + n + 4) 4) in
         let rdlen := big_endian (octets buffer (offset + n + 8) 2) in
         if cursor + rdlen <=? cap buffer then
           if (rtype =? 2) && (rclass =? 1) then
             '(domainName, _) <-
                Part000.parseDomainName fuel
                  (mkSlice (octets buffer cursor rdlen)
                           (skipn (Z.to_nat (cursor + rdlen)) (backing buffer)))
                  0;;
             Ret (mkResource name rtype rclass rttl rdlen (bytes_of domainName),
                  cursor + rdlen)
           else
             Ret (mkResource name rtype rclass rttl rdlen
                    (octets buffer cursor rdlen),
                  cursor + rdlen)
         else Panic SliceBoundsOutOfRange
     | Panic k => Panic k
     | OutOfFuel => OutOfFuel
     end).
Proof.
  split.
  - intros buffer offset.
    destruct (Parser.parseDomainName buffer offset) as [[name n]|k|] eqn:Hname;
      [|unfold Parser.parseResource; rewrite Hname; reflexivity ..].
    cbv zeta.
    pose proof (big_endian_nonneg (octets buffer (offset + n + 8) 2)).
    destruct (Z.le_gt_cases (offset + n + 10) (cap buffer)) as [Hle|Hgt].
    + apply Parser_parseResource_fields; assumption.
    + rewrite (Parser_parseResource_short _ _ _ _ Hname) by lia.
      destruct (Z.leb_spec
                  (offset + n + 10 + big_endian (octets buffer (offset + n + 8) 2))
                  (cap buffer)); [lia|reflexivity].
  - intros fuel buffer offset.
    destruct (Part000.parseDomainName fuel buffer offset)
      as [[name n]|k|] eqn:Hname;
      [|unfold Part000.parseResource; rewrite Hname; reflexivity ..].
    cbv zeta.
    pose proof (big_endian_nonneg (octets buffer (offset + n + 8) 2)).
    destruct (Z.le_gt_cases (offset + n + 10) (cap buffer)) as [Hle|Hgt].
    + apply Part000_parseResource_fields; assumption.
    + rewrite (Part000_parseResource_short _ _ _ _ _ Hname) by lia.
      destruct (Z.leb_spec
                  (offset + n + 10 + big_endian (octets buffer (offset + n + 8) 2))
                  (cap buffer)); [lia|reflexivity].
Qed.

Lemma parseResource_rdata_witness :
  Parser.parseResource www_a_record 0 =
    Ret (mkResource "www.com" 1 1 60 4 (map octet [1; 2; 3; 4]), 23) /\
  Part000.parseResource 2 com_pointer_record 16 =
    Ret (mkResource "com" 1 1 60 4 (map octet [1; 2; 3; 4]), 32) /\
  Part000.parseResource 1 ns_record 0 =
    Ret (mkResource "" 2 1 60 2 [octet 0], 14).
Proof.
  pose proof (proj1 parseResource_rdata www_a_record 0) as P1.
  pose proof (proj2 parseResource_rdata 2%nat com_pointer_record 16) as P2.
  pose proof (proj2 parseResource_rdata 1%nat ns_record 0) as P3.
  vm_compute in P1, P2, P3. vm_compute. repeat split; assumption.
Defined.

Lemma Part000_Read_all_or_nothing_witness :
  (0 <= 18 <= len query_for_part000 /\
   snd (Part000.Read 1 query_for_part000 18) =
     Ret (mkPayload (mkHeader 1 0 1 0 0 0) [mkQuestion "" 1 1] [] [] [], None)) /\
  12 <= len query_for_part000 /\
  PHeader (mkPayload (mkHeader 1 0 1 0 0 0) [mkQuestion "" 1 1] [] [] [])
    = header_at_0 query_for_part000 /\
  Z.of_nat (List.length [mkQuestion "" 1 1]) = QdCount (mkHeader 1 0 1 0 0 0) /\
  Z.of_nat (List.length (@nil Resource)) = AnCount (mkHeader 1 0 1 0 0 0) /\
  Z.of_nat (List.length (@nil Resource)) = NsCount (mkHeader 1 0 1 0 0 0) /\
  Z.of_nat (List.length (@nil Resource)) = ArCount (mkHeader 1 0 1 0 0 0).
Proof.
  split; [by_evaluation|].
  destruct (Part000_Read_all_or_nothing 1 query_for_part000 18
              (mkPayload (mkHeader 1 0 1 0 0 0) [mkQuestion "" 1 1] [] [] [])
              None ltac:(by_evaluation) ltac:(by_evaluation))
    as [(Hlt & _)|(H12 & _ & Hh & Hq & Han & Hns & Har)].
  - exfalso. revert Hlt. by_evaluation.
  - repeat split; assumption.
Defined.
